(** * The filesystem data model of HDF Compass

    A shallow embedding of [hdf_compass/filesystem_model/model.py]: the
    [Filesystem] store, the [Directory] container and the [File] array,
    together with the parts of their environment they call into
    ([os], [os.path] in its POSIX flavour, one-dimensional [numpy]
    indexing).  Python objects that are shared by reference (the store a
    node points to) live in an explicit heap; the local file system is an
    explicit [World] that every operation queries at call time. *)

From Stdlib Require Import ZArith String Ascii List Bool Lia.
From Stdlib.Strings Require Import Byte.
From Stdlib Require Import DecimalString DecimalNat.
From stdpp Require Import base list.
Import ListNotations.

Local Open Scope string_scope.
Local Open Scope Z_scope.

(** ** Exceptions and results *)

(** The error numbers an operating-system call may report. *)
Inductive errno : Type := EACCES | ENOENT | ENOTDIR | EISDIR | EIO.

(** The exceptions that occur in the model.  [ValueError url] is what the
    store constructor raises for a locator it does not accept (the spec's
    InvalidURL); [IndexError] is the spec's IndexOutOfRange.  [StoreClosed]
    and [NoMatch] are the failures the spec gives to key resolution.
    [OverflowError] is what numpy raises for an integer index that does
    not fit its index type.
    [UnboundRef] stands for a reference that was never allocated, which no
    Python program can hold. *)
Inductive exn : Type :=
| OSError (e : errno)
| IOError (e : errno)
| ValueError (arg : string)
| IndexError
| OverflowError
| StoreClosed
| NoMatch (key : string)
| UnboundRef.

Inductive result (A : Type) : Type :=
| Ok (a : A)
| Raise (e : exn).
Arguments Ok {A} a.
Arguments Raise {A} e.

#[global] Instance result_ret : MRet result := fun _ a => Ok a.
#[global] Instance result_bind : MBind result := fun _ _ k m =>
  match m with
  | Ok a => k a
  | Raise e => Raise e
  end.
#[global] Instance result_fmap : FMap result := fun _ _ g m =>
  match m with
  | Ok a => Ok (g a)
  | Raise e => Raise e
  end.

(** [try: m except: sel => handler]: the handler runs for the exceptions
    [sel] selects, every other exception propagates. *)
Definition try_except {A} (m : result A) (sel : exn -> bool)
    (handler : result A) : result A :=
  match m with
  | Ok a => Ok a
  | Raise e => if sel e then handler else Raise e
  end.

Definition is_OSError (e : exn) : bool :=
  match e with OSError _ => true | _ => false end.

Definition is_OSError_or_IOError (e : exn) : bool :=
  match e with OSError _ | IOError _ => true | _ => false end.

(** ** Python strings *)

Module str.

(** [s.rfind(c)]: the highest index of [c] in [s], or [-1]. *)
Fixpoint rfind (c : ascii) (s : string) : Z :=
  match s with
  | EmptyString => -1
  | String a r =>
      let i := rfind c r in
      if 0 <=? i then i + 1
      else if Ascii.eqb a c then 0 else -1
  end.

(** [s[n:]] for [0 <= n]. *)
Fixpoint drop (n : nat) (s : string) : string :=
  match n, s with
  | O, _ => s
  | S _, EmptyString => EmptyString
  | S m, String _ r => drop m r
  end.

(** [s[:n]] for [0 <= n]. *)
Fixpoint take (n : nat) (s : string) : string :=
  match n, s with
  | O, _ => EmptyString
  | S _, EmptyString => EmptyString
  | S m, String a r => String a (take m r)
  end.

(** [s.rstrip(c)] for a one-character [c]. *)
Fixpoint rstrip (c : ascii) (s : string) : string :=
  match s with
  | EmptyString => EmptyString
  | String a r =>
      match rstrip c r with
      | EmptyString => if Ascii.eqb a c then EmptyString else String a EmptyString
      | r' => String a r'
      end
  end.

(** [s == c * len(s)]. *)
Fixpoint all_eq (c : ascii) (s : string) : bool :=
  match s with
  | EmptyString => true
  | String a r => Ascii.eqb a c && all_eq c r
  end.

Definition startswith (c : ascii) (s : string) : bool :=
  match s with
  | String a _ => Ascii.eqb a c
  | EmptyString => false
  end.

Fixpoint endswith (c : ascii) (s : string) : bool :=
  match s with
  | EmptyString => false
  | String a EmptyString => Ascii.eqb a c
  | String _ r => endswith c r
  end.

Definition is_empty (s : string) : bool :=
  match s with EmptyString => true | _ => false end.

End str.

(** ** The local file system

    What the operating system answers at the time of a call.  Nothing
    relates the six answers to one another: a path may be listed by its
    parent and still be neither a directory nor a regular file (a dangling
    link, a socket), a file may report a size and refuse to be opened. *)
Record World : Type := {
  fs_exists : string -> bool;
  fs_isdir : string -> bool;
  fs_isfile : string -> bool;
  fs_listdir : string -> errno + list string;
  fs_getsize : string -> errno + nat;
  fs_read : string -> errno + list byte
}.

(** ** [os.path], POSIX flavour *)

Definition sep : ascii := "/"%char.

Module op.

(** [i = p.rfind(sep) + 1; return p[i:]] *)
Definition basename (p : string) : string :=
  let i := str.rfind sep p + 1 in
  str.drop (Z.to_nat i) p.

(** [head = p[:i]; if head and head != sep*len(head): head = head.rstrip(sep)] *)
Definition dirname (p : string) : string :=
  let i := str.rfind sep p + 1 in
  let head := str.take (Z.to_nat i) p in
  if negb (str.is_empty head) && negb (str.all_eq sep head)
  then str.rstrip sep head
  else head.

(** [join(a, b)] with one component [b]. *)
Definition join (a b : string) : string :=
  if str.startswith sep b then b
  else if str.is_empty a || str.endswith sep a then (a ++ b)%string
  else (a ++ String sep b)%string.

(** [exists], [isdir], [isfile] answer with a boolean and never raise. *)
Definition exists_ (w : World) (path : string) : bool := fs_exists w path.
Definition isdir (w : World) (path : string) : bool := fs_isdir w path.
Definition isfile (w : World) (path : string) : bool := fs_isfile w path.

(** [getsize] raises [OSError] when the path cannot be examined. *)
Definition getsize (w : World) (path : string) : result nat :=
  match fs_getsize w path with
  | inl e => Raise (OSError e)
  | inr n => Ok n
  end.

End op.

Module os.

(** [os.listdir(path)]: the names of the entries, or [OSError]. *)
Definition listdir (w : World) (path : string) : result (list string) :=
  match fs_listdir w path with
  | inl e => Raise (OSError e)
  | inr names => Ok names
  end.

End os.

(** [with open(key, 'rb') as f: f.read()]: the whole content, or the
    [IOError] of the failing [open] or [read]. *)
Definition open_read (w : World) (path : string) : result (list byte) :=
  match fs_read w path with
  | inl e => Raise (IOError e)
  | inr content => Ok content
  end.

(** ** Python sequences *)

(** [l[i]] for a Python list and an integer [i]: negative indices count
    from the end, anything outside [-len(l) <= i < len(l)] raises
    [IndexError]. *)
Definition py_getitem {A : Type} (l : list A) (i : Z) : result A :=
  let n := Z.of_nat (length l) in
  if (i <? - n) || (n <=? i) then Raise IndexError
  else
    match l !! Z.to_nat (if i <? 0 then i + n else i) with
    | Some x => Ok x
    | None => Raise IndexError
    end.

(** ** One-dimensional [numpy] arrays of dtype [u1] *)

Module np.

Inductive dtype_t : Type :=
| int8 | uint8 | int16 | uint16 | int32 | uint32 | int64 | uint64
| float32 | float64.

(** [np.dtype(code)] for the array-protocol type strings. *)
Definition dtype (code : string) : result dtype_t :=
  if String.eqb code "i1" then Ok int8
  else if String.eqb code "u1" then Ok uint8
  else if String.eqb code "i2" then Ok int16
  else if String.eqb code "u2" then Ok uint16
  else if String.eqb code "i4" then Ok int32
  else if String.eqb code "u4" then Ok uint32
  else if String.eqb code "i8" then Ok int64
  else if String.eqb code "u8" then Ok uint64
  else if String.eqb code "f4" then Ok float32
  else if String.eqb code "f8" then Ok float64
  else Raise (ValueError code).

Inductive kind_t : Type := SignedInt | UnsignedInt | Floating.

Definition kind (t : dtype_t) : kind_t :=
  match t with
  | int8 | int16 | int32 | int64 => SignedInt
  | uint8 | uint16 | uint32 | uint64 => UnsignedInt
  | float32 | float64 => Floating
  end.

Definition bits (t : dtype_t) : nat :=
  match t with
  | int8 | uint8 => 8
  | int16 | uint16 => 16
  | int32 | uint32 | float32 => 32
  | int64 | uint64 | float64 => 64
  end.

(** A one-dimensional array of unsigned bytes. *)
Abbreviation ndarray := (list byte).

(** [np.fromstring(s, dtype='u1')]: one element per byte of [s]. *)
Definition fromstring (s : list byte) : ndarray := s.

(** [np.zeros((n,), dtype='u1')]. *)
Definition zeros (n : nat) : ndarray := replicate n x00.

(** The argument of [data[args]]: an integer or [slice(start, stop, step)]. *)
Inductive index : Type :=
| Int (i : Z)
| Slice (start stop step : option Z).

(** What [data[args]] evaluates to: one element or a sub-array. *)
Inductive value : Type :=
| Scalar (b : byte)
| Array (a : ndarray).

(** [slice(start, stop, step).indices(length)]. *)
Definition slice_indices (start stop step : option Z) (length : Z)
    : result (Z * Z * Z) :=
  let step := default 1 step in
  if step =? 0 then Raise (ValueError "slice step cannot be zero")
  else
    let lower := if step <? 0 then -1 else 0 in
    let upper := if step <? 0 then length - 1 else length in
    let clip (bound : option Z) (dflt : Z) :=
      match bound with
      | None => dflt
      | Some b => if b <? 0 then Z.max (b + length) lower else Z.min b upper
      end in
    Ok (clip start (if step <? 0 then upper else lower),
        clip stop (if step <? 0 then lower else upper),
        step).

(** [len(range(start, stop, step))] for a non-zero step. *)
Definition range_len (start stop step : Z) : Z :=
  if 0 <? step
  then (if start <? stop then (stop - start - 1) / step + 1 else 0)
  else (if stop <? start then (start - stop - 1) / (- step) + 1 else 0).

(** The index type [intp] of numpy: a signed integer of 64 bits. *)
Definition intp_min : Z := - 2 ^ 63.
Definition intp_max : Z := 2 ^ 63 - 1.

Definition in_intp (i : Z) : bool := (intp_min <=? i) && (i <=? intp_max).

(** [data[args]].  An integer index is first converted to [intp], which
    raises [OverflowError] when it does not fit; the bounds of a slice are
    clipped instead. *)
Definition getitem (data : ndarray) (args : index) : result value :=
  match args with
  | Int i =>
      if in_intp i then Scalar <$> py_getitem data i
      else Raise OverflowError
  | Slice start stop step =>
      match slice_indices start stop step (Z.of_nat (length data)) with
      | Raise e => Raise e
      | Ok (first, last, step) =>
          let count := Z.to_nat (range_len first last step) in
          Ok (Array (map (fun k : nat =>
                            nth (Z.to_nat (first + Z.of_nat k * step)) data x00)
                         (seq 0 count)))
      end
  end.

End np.

(** ** The store: [class Filesystem(compass_model.Store)] *)

(** The attributes of a store object. *)
Record Filesystem : Type := {
  _url : string;
  _valid : bool
}.

(** Store objects are shared by reference: every node keeps the store it
    was resolved from.  The heap holds the store objects; a reference is a
    position in it. *)
Abbreviation Heap := (list Filesystem).
Abbreviation ref := nat.

Definition deref (h : Heap) (r : ref) : result Filesystem :=
  match h !! r with
  | Some s => Ok s
  | None => Raise UnboundRef
  end.

Definition Filesystem_plugin_name : string := "Filesystem".

Definition Filesystem_plugin_description : string :=
  "A plugin used to browse local files and folders.".

(** [__contains__]: [op.exists(key)]. *)
Definition Filesystem_contains (w : World) (h : Heap) (self : ref)
    (key : string) : bool :=
  op.exists_ w key.

Definition Filesystem_url (h : Heap) (self : ref) : result string :=
  _url <$> deref h self.

Definition Filesystem_display_name (h : Heap) (self : ref) : string :=
  "Local file system".

Definition Filesystem_valid (h : Heap) (self : ref) : result bool :=
  _valid <$> deref h self.

(** [can_handle(url)]; the two [log.debug] calls are not modelled. *)
Definition Filesystem_can_handle (url : string) : bool :=
  if String.eqb url "file://localhost" then true else false.

(** [Filesystem(url)]: a new object, initialised by [__init__]. *)
Definition Filesystem_init (h : Heap) (url : string) : result (ref * Heap) :=
  if negb (Filesystem_can_handle url) then Raise (ValueError url)
  else Ok (length h, (h ++ [{| _url := url; _valid := true |}])%list).

(** [close]: [self._valid = False]. *)
Definition Filesystem_close (h : Heap) (self : ref) : Heap :=
  alter (fun s => {| _url := _url s; _valid := false |}) self h.

(** ** The nodes: [class Directory(compass_model.Container)] and
    [class File(compass_model.Array)] *)

Record Directory : Type := {
  dir_store : ref;
  dir_key : string;
  dir_names : list string
}.

Record File : Type := {
  file_store : ref;
  file_key : string
}.

Inductive Node : Type :=
| DirectoryNode (d : Directory)
| FileNode (f : File).

Definition Node_key (n : Node) : string :=
  match n with
  | DirectoryNode d => dir_key d
  | FileNode f => file_key f
  end.

Definition Node_store (n : Node) : ref :=
  match n with
  | DirectoryNode d => dir_store d
  | FileNode f => file_store f
  end.

Definition Directory_class_kind : string := "Directory".

Definition Directory_can_handle (w : World) (store : ref) (key : string) : bool :=
  op.isdir w key.

(** [Directory(store, key)]: the names are listed here, once; an [OSError]
    of [os.listdir] leaves the empty list. *)
Definition Directory_init (w : World) (store : ref) (key : string)
    : result Directory :=
  names ← try_except (os.listdir w key) is_OSError (Ok []);
  Ok {| dir_store := store; dir_key := key; dir_names := names |}.

Definition Directory_key (self : Directory) : string := dir_key self.

Definition Directory_store (self : Directory) : ref := dir_store self.

Definition Directory_display_name (self : Directory) : string :=
  let bn := op.basename (Directory_key self) in
  if (String.length bn =? 0)%nat then "/" else bn.

(** [__len__]: [len(self._names)]. *)
Definition Directory_len (self : Directory) : nat := length (dir_names self).

Definition File_class_kind : string := "File".

Definition File_can_handle (w : World) (store : ref) (key : string) : bool :=
  op.isfile w key.

Definition File_init (w : World) (store : ref) (key : string) : result File :=
  Ok {| file_store := store; file_key := key |}.

Definition File_key (self : File) : string := file_key self.

Definition File_store (self : File) : ref := file_store self.

Definition File_display_name (self : File) : string :=
  op.basename (File_key self).

(** [shape]: [(op.getsize(self.key),)], a tuple of one component. *)
Definition File_shape (w : World) (self : File) : result (list nat) :=
  n ← op.getsize w (File_key self);
  Ok [n].

(** [dtype]: [np.dtype('u1')]. *)
Definition File_dtype (self : File) : result np.dtype_t := np.dtype "u1".

(** ** Key resolution: [store[key]] *)

(** The node classes a store can be asked to build. *)
Inductive NodeClass : Type := FileClass | DirectoryClass.

Definition NodeClass_can_handle (nc : NodeClass) : World -> ref -> string -> bool :=
  match nc with
  | FileClass => File_can_handle
  | DirectoryClass => Directory_can_handle
  end.

Definition NodeClass_construct (nc : NodeClass) (w : World) (store : ref)
    (key : string) : result Node :=
  match nc with
  | FileClass => FileNode <$> File_init w store key
  | DirectoryClass => DirectoryNode <$> Directory_init w store key
  end.

(** Modelled from the spec: [push], the class method of
    [compass_model.Store] that registers a node class; the base class is
    not among the sources.  The spec: it appends the node type to the
    ordered list of variants, and the order of registration is the order
    of dispatch. *)
Definition push (nodeclasses : list NodeClass) (nc : NodeClass) : list NodeClass :=
  (nodeclasses ++ [nc])%list.

(** The two registrations that end the module: [Filesystem.push(File)],
    then [Filesystem.push(Directory)]. *)
Definition Filesystem_nodeclasses : list NodeClass :=
  push (push [] FileClass) DirectoryClass.

(** Modelled from the spec: the dispatch of the type registry, part of
    the missing [compass_model.Store].  The spec: it evaluates each
    registered node type's [canHandle(store, key)] in registration order
    and constructs the first that returns true; it fails with NoMatch if
    none does. *)
Fixpoint dispatch (w : World) (store : ref) (key : string)
    (nodeclasses : list NodeClass) : result Node :=
  match nodeclasses with
  | [] => Raise (NoMatch key)
  | nc :: rest =>
      if NodeClass_can_handle nc w store key
      then NodeClass_construct nc w store key
      else dispatch w store key rest
  end.

(** Modelled from the spec: [__getitem__] of [compass_model.Store], the
    resolution [store[key]], which [Filesystem] inherits and does not
    define.  The spec: resolution is permitted only while [valid] is true
    and fails with StoreClosed after [close()]; otherwise it dispatches to
    the type registry. *)
Definition Store_getitem (w : World) (h : Heap) (self : ref) (key : string)
    : result Node :=
  s ← deref h self;
  if _valid s then dispatch w self key Filesystem_nodeclasses
  else Raise StoreClosed.

(** [root]: [self['/']]. *)
Definition Filesystem_root (w : World) (h : Heap) (self : ref) : result Node :=
  Store_getitem w h self "/".

(** [get_parent(key)]: [None] for the root key, [self[op.dirname(key)]]
    for every other. *)
Definition Filesystem_get_parent (w : World) (h : Heap) (self : ref)
    (key : string) : result (option Node) :=
  if String.eqb key "/" then Ok None
  else Some <$> Store_getitem w h self (op.dirname key).

(** ** Children of a directory *)

(** [__getitem__(idx)]: [self._store[op.join(self.key, self._names[idx])]]. *)
Definition Directory_getitem (w : World) (h : Heap) (self : Directory)
    (idx : Z) : result Node :=
  name ← py_getitem (dir_names self) idx;
  Store_getitem w h (dir_store self) (op.join (Directory_key self) name).

(** [__iter__] is a generator.  Its state is the directory it runs over
    and the names not yet visited; the directory itself is not changed by
    a pass. *)
Record DirIter : Type := {
  it_self : Directory;
  it_rest : list string
}.

(** Calling [__iter__] makes a generator positioned before the first of
    the captured names. *)
Definition Directory_iter (self : Directory) : DirIter :=
  {| it_self := self; it_rest := dir_names self |}.

Inductive Step : Type :=
| Yield (n : Node) (g : DirIter)
| StopIteration
| Throw (e : exn) (g : DirIter).

(** One [next()]: resolve the child for the next name and yield it.  A
    generator that raised is finished. *)
Definition DirIter_next (w : World) (h : Heap) (g : DirIter) : Step :=
  match it_rest g with
  | [] => StopIteration
  | name :: rest =>
      let self := it_self g in
      match Store_getitem w h (dir_store self) (op.join (Directory_key self) name) with
      | Ok n => Yield n {| it_self := self; it_rest := rest |}
      | Raise e => Throw e {| it_self := self; it_rest := [] |}
      end
  end.

(** [advances w h g g']: [g'] is a state of the generator [g] after some
    calls of [next()]. *)
Inductive advances (w : World) (h : Heap) : DirIter -> DirIter -> Prop :=
| advances_refl (g : DirIter) : advances w h g g
| advances_yield (g g1 g2 : DirIter) (n : Node) :
    DirIter_next w h g = Yield n g1 -> advances w h g1 g2 -> advances w h g g2
| advances_throw (g g1 g2 : DirIter) (e : exn) :
    DirIter_next w h g = Throw e g1 -> advances w h g1 g2 -> advances w h g g2.

(** The resolution a pass over [self] performs for one of its names. *)
Definition child_resolves (w : World) (h : Heap) (self : Directory)
    (name : string) (n : Node) : Prop :=
  Store_getitem w h (dir_store self) (op.join (Directory_key self) name) = Ok n.

(** How a pass over a generator ended. *)
Inductive Outcome : Type :=
| Exhausted
| Raised (e : exn)
| OutOfFuel.

(** [for node in g: ...], collecting the nodes: at most [fuel] calls of
    [next()]. *)
Fixpoint consume (fuel : nat) (w : World) (h : Heap) (g : DirIter)
    : list Node * Outcome :=
  match fuel with
  | O => ([], OutOfFuel)
  | S fuel' =>
      match DirIter_next w h g with
      | StopIteration => ([], Exhausted)
      | Throw e _ => ([], Raised e)
      | Yield n g' =>
          let '(nodes, o) := consume fuel' w h g' in (n :: nodes, o)
      end
  end.

(** ** The content of a file *)

(** Modelled from the spec: [__len__] of a [File], which [__getitem__]
    calls as [len(self)]; the class body defines none, it has to come from
    the base class [compass_model.Array], which is not among the sources.
    The spec: the substituted buffer has the length of the file's reported
    size. *)
Definition File_len (w : World) (self : File) : result nat :=
  op.getsize w (File_key self).

(** [__getitem__(args)]: the whole file as an array, or zeros of length
    [len(self)] when [open] or [read] raises [OSError] or [IOError]; then
    [data[args]]. *)
Definition File_getitem (w : World) (self : File) (args : np.index)
    : result np.value :=
  data ← try_except (np.fromstring <$> open_read w (File_key self))
                    is_OSError_or_IOError
                    (np.zeros <$> File_len w self);
  np.getitem data args.

(** ** Descriptions *)

(** The double quote character. *)
Definition dquote : string := String (ascii_of_nat 34) EmptyString.

(** ['%d' % n] for a natural number: its decimal digits. *)
Definition format_d (n : nat) : string := NilEmpty.string_of_uint (Nat.to_uint n).

(** [description] of a directory:
    ['Folder "%s" (%d members)' % (self.display_name, len(self))]. *)
Definition Directory_description (self : Directory) : string :=
  ("Folder " ++ dquote ++ Directory_display_name self ++ dquote
   ++ " (" ++ format_d (Directory_len self) ++ " members)")%string.

(** [description] of a file:
    ['File "%s", size %d bytes' % (self.display_name, op.getsize(self.key))]. *)
Definition File_description (w : World) (self : File) : result string :=
  let name := File_display_name self in
  n ← op.getsize w (File_key self);
  Ok ("File " ++ dquote ++ name ++ dquote
      ++ ", size " ++ format_d n ++ " bytes")%string.

(** [node.display_name], whichever class the node has. *)
Definition Node_display_name (n : Node) : string :=
  match n with
  | DirectoryNode d => Directory_display_name d
  | FileNode f => File_display_name f
  end.

(** [node.description], whichever class the node has. *)
Definition Node_description (w : World) (n : Node) : result string :=
  match n with
  | DirectoryNode d => Ok (Directory_description d)
  | FileNode f => File_description w f
  end.

(** ** The life of a store *)

(** The operations a client can apply to the stores of a heap. *)
Inductive StoreOp : Type :=
| OpConstruct (url : string)
| OpClose (self : ref)
| OpContains (self : ref) (key : string)
| OpGetitem (self : ref) (key : string)
| OpRoot (self : ref)
| OpGetParent (self : ref) (key : string)
| OpUrl (self : ref)
| OpDisplayName (self : ref)
| OpValid (self : ref).

(** The heap an operation leaves behind.  Only construction and [close]
    assign an attribute of a store; a construction that raises leaves no
    object. *)
Definition run_op (h : Heap) (o : StoreOp) : Heap :=
  match o with
  | OpConstruct url =>
      match Filesystem_init h url with
      | Ok (_, h') => h'
      | Raise _ => h
      end
  | OpClose self => Filesystem_close h self
  | OpContains _ _ | OpGetitem _ _ | OpRoot _ | OpGetParent _ _
  | OpUrl _ | OpDisplayName _ | OpValid _ => h
  end.

Definition run_ops (h : Heap) (ops : list StoreOp) : Heap :=
  fold_left run_op ops h.

(** ** A small file system to run the model on

    The root holds the directory [a]; [a] holds the file [b] of four
    bytes, the directory [c] that may not be listed, the file [d] of four
    bytes that may not be opened, and the name [e] that is neither a
    directory nor a regular file. *)

Definition one_of (l : list string) (p : string) : bool :=
  existsb (String.eqb p) l.

Definition demo_world : World := {|
  fs_exists := one_of ["/"; "/a"; "/a/"; "/a/b"; "/a/c"; "/a/d"];
  fs_isdir := one_of ["/"; "/a"; "/a/"; "/a/c"];
  fs_isfile := one_of ["/a/b"; "/a/d"];
  fs_listdir := fun p =>
    if one_of ["/"] p then inr ["a"]
    else if one_of ["/a"; "/a/"] p then inr ["b"; "c"; "d"; "e"]
    else if one_of ["/a/c"] p then inl EACCES
    else if one_of ["/a/b"; "/a/d"] p then inl ENOTDIR
    else inl ENOENT;
  fs_getsize := fun p =>
    if one_of ["/a/b"; "/a/d"] p then inr 4%nat
    else if one_of ["/"; "/a"; "/a/"; "/a/c"] p then inr 4096%nat
    else inl ENOENT;
  fs_read := fun p =>
    if one_of ["/a/b"] p then inr [x68; x64; x66; x0a]
    else if one_of ["/a/d"] p then inl EACCES
    else if one_of ["/"; "/a"; "/a/"; "/a/c"] p then inl EISDIR
    else inl ENOENT
|}.

(** The same file system after [b] has grown to six bytes. *)
Definition demo_world_grown : World := {|
  fs_exists := fs_exists demo_world;
  fs_isdir := fs_isdir demo_world;
  fs_isfile := fs_isfile demo_world;
  fs_listdir := fs_listdir demo_world;
  fs_getsize := fun p =>
    if one_of ["/a/b"] p then inr 6%nat else fs_getsize demo_world p;
  fs_read := fun p =>
    if one_of ["/a/b"] p then inr [x68; x64; x66; x0a; x21; x0a]
    else fs_read demo_world p
|}.

(** A heap with one open store. *)
Definition demo_heap : Heap := [{| _url := "file://localhost"; _valid := true |}].

(** The directory that [store["/a/"]] resolves to in the small file
    system. *)
Definition dir_a_slash : Directory :=
  {| dir_store := 0; dir_key := "/a/"; dir_names := ["b"; "c"; "d"; "e"] |}.

(** The directory that [store["/"]] resolves to in the small file
    system. *)
Definition dir_root : Directory :=
  {| dir_store := 0; dir_key := "/"; dir_names := ["a"] |}.


(** * Properties *)

(** ** The model at work *)

Example basename_root : op.basename "/" = "".
Proof. reflexivity. Qed.

Example basename_ab : op.basename "/a/b" = "b".
Proof. reflexivity. Qed.

Example dirname_ab : op.dirname "/a/b" = "/a".
Proof. reflexivity. Qed.

Example dirname_a : op.dirname "/a" = "/".
Proof. reflexivity. Qed.

Example dirname_trailing : op.dirname "/a/b/" = "/a/b".
Proof. reflexivity. Qed.

Example join_root : op.join "/" "a" = "/a".
Proof. reflexivity. Qed.

Example join_a_b : op.join "/a" "b" = "/a/b".
Proof. reflexivity. Qed.

Example zeros_3 : np.zeros 3 = [x00; x00; x00].
Proof. reflexivity. Qed.

Example getitem_neg :
  np.getitem [x01; x02; x03] (np.Int (-1)) = Ok (np.Scalar x03).
Proof. reflexivity. Qed.

Example getitem_oob : np.getitem [x01; x02; x03] (np.Int 3) = Raise IndexError.
Proof. reflexivity. Qed.

Example getitem_overflow :
  np.getitem [x01; x02; x03] (np.Int (2 ^ 63)) = Raise OverflowError.
Proof. reflexivity. Qed.

Example getitem_slice :
  np.getitem [x01; x02; x03; x04] (np.Slice (Some 1) None None)
  = Ok (np.Array [x02; x03; x04]).
Proof. reflexivity. Qed.

Example getitem_rev :
  np.getitem [x01; x02; x03; x04] (np.Slice None None (Some (-2)))
  = Ok (np.Array [x04; x02]).
Proof. reflexivity. Qed.

Example getitem_slice_clip :
  np.getitem [x01; x02; x03; x04] (np.Slice (Some (-3)) (Some 100) (Some 2))
  = Ok (np.Array [x02; x04]).
Proof. reflexivity. Qed.

Example demo_construct :
  Filesystem_init [] "file://localhost" = Ok (0%nat, demo_heap).
Proof. reflexivity. Qed.

Example demo_root :
  Filesystem_root demo_world demo_heap 0
  = Ok (DirectoryNode {| dir_store := 0; dir_key := "/"; dir_names := ["a"] |}).
Proof. reflexivity. Qed.

Example demo_a :
  Store_getitem demo_world demo_heap 0 "/a"
  = Ok (DirectoryNode {| dir_store := 0; dir_key := "/a";
                         dir_names := ["b"; "c"; "d"; "e"] |}).
Proof. reflexivity. Qed.

Example demo_b_read :
  File_getitem demo_world {| file_store := 0; file_key := "/a/b" |}
               (np.Slice None None None)
  = Ok (np.Array [x68; x64; x66; x0a]).
Proof. reflexivity. Qed.

Example demo_d_read :
  File_getitem demo_world {| file_store := 0; file_key := "/a/d" |}
               (np.Slice None None None)
  = Ok (np.Array [x00; x00; x00; x00]).
Proof. reflexivity. Qed.

Example demo_e_unmatched :
  Store_getitem demo_world demo_heap 0 "/a/e" = Raise (NoMatch "/a/e").
Proof. reflexivity. Qed.

Example demo_root_pass :
  consume 2 demo_world demo_heap (Directory_iter dir_root)
  = ([DirectoryNode {| dir_store := 0; dir_key := "/a";
                       dir_names := ["b"; "c"; "d"; "e"] |}],
     Exhausted).
Proof. reflexivity. Qed.

Example demo_a_pass :
  consume 5 demo_world demo_heap (Directory_iter dir_a_slash)
  = ([FileNode {| file_store := 0; file_key := "/a/b" |};
      DirectoryNode {| dir_store := 0; dir_key := "/a/c"; dir_names := [] |};
      FileNode {| file_store := 0; file_key := "/a/d" |}],
     Raised (NoMatch "/a/e")).
Proof. reflexivity. Qed.

Example demo_closed_pass :
  consume 2 demo_world (Filesystem_close demo_heap 0) (Directory_iter dir_root)
  = ([], Raised StoreClosed).
Proof. reflexivity. Qed.

Example demo_root_description :
  Directory_description dir_root
  = ("Folder " ++ dquote ++ "/" ++ dquote ++ " (1 members)")%string.
Proof. reflexivity. Qed.

Example demo_b_description :
  File_description demo_world {| file_store := 0; file_key := "/a/b" |}
  = Ok ("File " ++ dquote ++ "b" ++ dquote ++ ", size 4 bytes")%string.
Proof. reflexivity. Qed.

Example format_d_4096 : format_d 4096 = "4096".
Proof. reflexivity. Qed.

Example format_d_0 : format_d 0 = "0".
Proof. reflexivity. Qed.

Example demo_shape_of_missing_file :
  File_shape demo_world {| file_store := 0; file_key := "/gone" |}
  = Raise (OSError ENOENT).
Proof. reflexivity. Qed.

(** ** The store *)

Lemma can_handle_true_iff (url : string) :
  Filesystem_can_handle url = true <-> url = "file://localhost".
Proof.
  unfold Filesystem_can_handle.
  destruct (String.eqb url "file://localhost") eqn:E.
  - apply String.eqb_eq in E. split; auto.
  - apply String.eqb_neq in E. split; [discriminate | contradiction].
Qed.

Lemma deref_Some (h : Heap) (r : ref) (s : Filesystem) :
  h !! r = Some s -> deref h r = Ok s.
Proof. unfold deref. intros ->. reflexivity. Qed.

Lemma init_lookup_new (h : Heap) (s : Filesystem) :
  (h ++ [s])%list !! length h = Some s.
Proof. apply list_lookup_middle. reflexivity. Qed.

(** C5: the store accepts one locator, by string equality, and its
    constructor raises [ValueError url] (the spec's InvalidURL) exactly
    when [can_handle url] is false; a successful construction yields a
    store with that url and [valid] true, and leaves the existing stores
    as they were. *)
Theorem C5_can_handle_and_construct (h : Heap) (url : string) :
  (Filesystem_can_handle url = true <-> url = "file://localhost")
  /\ (forall suffix : string,
        Filesystem_can_handle ("file://localhost" ++ suffix)%string = true ->
        suffix = "")
  /\ (Filesystem_init h url = Raise (ValueError url)
      <-> Filesystem_can_handle url = false)
  /\ ((exists e, Filesystem_init h url = Raise e)
      <-> Filesystem_can_handle url = false)
  /\ (Filesystem_can_handle url = true ->
      exists (self : ref) (h' : Heap),
        Filesystem_init h url = Ok (self, h')
        /\ Filesystem_url h' self = Ok url
        /\ Filesystem_valid h' self = Ok true
        /\ (forall (r : ref) (s : Filesystem), h !! r = Some s -> h' !! r = Some s)).
Proof.
  split; [apply can_handle_true_iff |].
  split.
  { intros suffix H. apply can_handle_true_iff in H.
    change "file://localhost" with ("file://localhost" ++ "")%string in H at 2.
    revert H. generalize "file://localhost" as pre.
    induction pre as [| c pre IH]; simpl; intros H; [exact H |].
    injection H as H. auto. }
  unfold Filesystem_init.
  destruct (Filesystem_can_handle url) eqn:E; simpl.
  - split; [split; [discriminate | discriminate] |].
    split; [split; [intros [e He]; discriminate | discriminate] |].
    intros _. exists (length h), (h ++ [{| _url := url; _valid := true |}])%list.
    split; [reflexivity |].
    unfold Filesystem_url, Filesystem_valid.
    rewrite (deref_Some _ _ _ (init_lookup_new h _)). simpl.
    repeat split.
    intros r s Hr. apply lookup_app_l_Some. exact Hr.
  - split; [split; reflexivity |].
    split; [split; [reflexivity | intros _; eexists; reflexivity] |].
    discriminate.
Qed.

Lemma C5_can_handle_and_construct_witness :
  Filesystem_can_handle "file://localhost" = true
  /\ Filesystem_can_handle "file://localhost/" = false
  /\ Filesystem_init [] "file://localhost/" = Raise (ValueError "file://localhost/")
  /\ exists (self : ref) (h' : Heap),
       Filesystem_init demo_heap "file://localhost" = Ok (self, h')
       /\ Filesystem_url h' self = Ok "file://localhost"
       /\ Filesystem_valid h' self = Ok true
       /\ (forall (r : ref) (s : Filesystem),
             demo_heap !! r = Some s -> h' !! r = Some s).
Proof.
  split; [reflexivity |]. split; [reflexivity |].
  split; [apply (C5_can_handle_and_construct [] "file://localhost/"); reflexivity |].
  apply (C5_can_handle_and_construct demo_heap "file://localhost"). reflexivity.
Defined.

Lemma close_lookup_self (h : Heap) (self : ref) (s : Filesystem) :
  h !! self = Some s ->
  Filesystem_close h self !! self = Some {| _url := _url s; _valid := false |}.
Proof.
  intros H. unfold Filesystem_close.
  rewrite list_lookup_alter_eq, H. reflexivity.
Qed.

Lemma close_lookup_other (h : Heap) (self r : ref) :
  r <> self -> Filesystem_close h self !! r = h !! r.
Proof.
  intros H. unfold Filesystem_close.
  apply list_lookup_alter_ne. congruence.
Qed.

(** C10: [close] changes the [valid] attribute of the store it is called
    on and nothing else; membership, url and display name answer after it
    as before, and membership is the existence of the path, whatever the
    heap holds. *)
Theorem C10_close_frame (w : World) (h : Heap) (self : ref) (s : Filesystem) :
  h !! self = Some s ->
  Filesystem_close h self !! self = Some {| _url := _url s; _valid := false |}
  /\ (forall r : ref, r <> self -> Filesystem_close h self !! r = h !! r)
  /\ length (Filesystem_close h self) = length h
  /\ (forall key : string,
        Filesystem_contains w (Filesystem_close h self) self key
        = Filesystem_contains w h self key)
  /\ (forall (h' : Heap) (r : ref) (key : string),
        Filesystem_contains w h' r key = op.exists_ w key)
  /\ Filesystem_url (Filesystem_close h self) self = Filesystem_url h self
  /\ Filesystem_display_name (Filesystem_close h self) self
     = Filesystem_display_name h self.
Proof.
  intros H.
  split; [apply close_lookup_self; exact H |].
  split; [intros r Hr; apply close_lookup_other; exact Hr |].
  split; [apply length_alter |].
  split; [reflexivity |].
  split; [reflexivity |].
  split; [| reflexivity].
  unfold Filesystem_url.
  rewrite (deref_Some _ _ _ (close_lookup_self _ _ _ H)), (deref_Some _ _ _ H).
  reflexivity.
Qed.

Lemma C10_close_frame_witness :
  Filesystem_contains demo_world (Filesystem_close demo_heap 0) 0 "/a/b"
  = Filesystem_contains demo_world demo_heap 0 "/a/b"
  /\ Filesystem_url (Filesystem_close demo_heap 0) 0 = Filesystem_url demo_heap 0.
Proof.
  pose proof (C10_close_frame demo_world demo_heap 0 _ eq_refl) as H.
  destruct H as (_ & _ & _ & Hc & _ & Hu & _).
  split; [apply Hc | exact Hu].
Defined.

Lemma run_op_keeps_closed (h : Heap) (r : ref) (s : Filesystem) (o : StoreOp) :
  h !! r = Some s -> _valid s = false ->
  exists s', run_op h o !! r = Some s' /\ _valid s' = false /\ _url s' = _url s.
Proof.
  intros Hr Hv.
  destruct o as [url | self | | | | | | |]; simpl; try solve [exists s; auto].
  - unfold Filesystem_init.
    destruct (negb (Filesystem_can_handle url)); exists s; repeat split; auto.
    apply lookup_app_l_Some. exact Hr.
  - destruct (decide (self = r)) as [-> | Hne].
    + eexists. split; [apply close_lookup_self; exact Hr | split; reflexivity].
    + exists s. split; [| auto].
      rewrite close_lookup_other by congruence. exact Hr.
Qed.

Lemma run_ops_keeps_closed (ops : list StoreOp) (h : Heap) (r : ref) (s : Filesystem) :
  h !! r = Some s -> _valid s = false ->
  exists s', run_ops h ops !! r = Some s' /\ _valid s' = false /\ _url s' = _url s.
Proof.
  revert h s. induction ops as [| o ops IH]; intros h s Hr Hv; simpl.
  - exists s. auto.
  - destruct (run_op_keeps_closed h r s o Hr Hv) as (s1 & H1 & Hv1 & Hu1).
    destruct (IH _ _ H1 Hv1) as (s2 & H2 & Hv2 & Hu2).
    exists s2. repeat split; auto. congruence.
Qed.

Lemma getitem_closed (w : World) (h : Heap) (r : ref) (s : Filesystem) (key : string) :
  h !! r = Some s -> _valid s = false -> Store_getitem w h r key = Raise StoreClosed.
Proof.
  intros Hr Hv. unfold Store_getitem.
  rewrite (deref_Some _ _ _ Hr). simpl. rewrite Hv. reflexivity.
Qed.

Lemma py_getitem_in_range {A : Type} (l : list A) (i : Z) :
  - Z.of_nat (length l) <= i < Z.of_nat (length l) ->
  exists x : A,
    py_getitem l i = Ok x
    /\ l !! Z.to_nat (if i <? 0 then i + Z.of_nat (length l) else i) = Some x.
Proof.
  intros Hi. unfold py_getitem.
  replace (i <? - Z.of_nat (length l)) with false by (symmetry; apply Z.ltb_ge; lia).
  replace (Z.of_nat (length l) <=? i) with false by (symmetry; apply Z.leb_gt; lia).
  simpl.
  destruct (l !! Z.to_nat (if i <? 0 then i + Z.of_nat (length l) else i)) as [x |] eqn:E.
  - exists x. auto.
  - apply lookup_ge_None in E.
    destruct (i <? 0) eqn:Ei; [apply Z.ltb_lt in Ei | apply Z.ltb_ge in Ei]; lia.
Qed.

Lemma py_getitem_out_of_range {A : Type} (l : list A) (i : Z) :
  i >= Z.of_nat (length l) \/ i < - Z.of_nat (length l) ->
  py_getitem l i = Raise IndexError.
Proof.
  intros Hi. unfold py_getitem.
  destruct (i <? - Z.of_nat (length l)) eqn:E1; [reflexivity |].
  destruct (Z.of_nat (length l) <=? i) eqn:E2; [reflexivity |].
  apply Z.ltb_ge in E1. apply Z.leb_gt in E2. lia.
Qed.

(** C3: [close] sets [valid] to false; whatever operations follow, on this
    store or on others, [valid] stays false; and every resolution through
    the closed store, directly, as [root], or from a directory that
    points to it, fails with StoreClosed. *)
Theorem C3_closed_is_terminal (w : World) (h : Heap) (self : ref)
    (s : Filesystem) (ops : list StoreOp) (key : string) :
  h !! self = Some s ->
  Filesystem_valid (Filesystem_close h self) self = Ok false
  /\ Store_getitem w (Filesystem_close h self) self key = Raise StoreClosed
  /\ Filesystem_valid (run_ops (Filesystem_close h self) ops) self = Ok false
  /\ Store_getitem w (run_ops (Filesystem_close h self) ops) self key
     = Raise StoreClosed
  /\ Filesystem_root w (run_ops (Filesystem_close h self) ops) self
     = Raise StoreClosed
  /\ (forall (d : Directory) (idx : Z),
        dir_store d = self ->
        - Z.of_nat (Directory_len d) <= idx < Z.of_nat (Directory_len d) ->
        Directory_getitem w (run_ops (Filesystem_close h self) ops) d idx
        = Raise StoreClosed).
Proof.
  intros H.
  pose proof (close_lookup_self _ _ _ H) as Hc.
  destruct (run_ops_keeps_closed ops _ _ _ Hc eq_refl) as (s' & Hs' & Hv' & _).
  split; [unfold Filesystem_valid; rewrite (deref_Some _ _ _ Hc); reflexivity |].
  split; [apply (getitem_closed _ _ _ _ _ Hc); reflexivity |].
  split; [unfold Filesystem_valid; rewrite (deref_Some _ _ _ Hs'); simpl; congruence |].
  split; [apply (getitem_closed _ _ _ _ _ Hs' Hv') |].
  split; [apply (getitem_closed _ _ _ _ _ Hs' Hv') |].
  intros d idx Hd Hidx. unfold Directory_getitem.
  destruct (py_getitem_in_range (dir_names d) idx Hidx) as (name & -> & _).
  simpl. rewrite Hd. apply (getitem_closed _ _ _ _ _ Hs' Hv').
Qed.

Lemma C3_closed_is_terminal_witness :
  Store_getitem demo_world
    (run_ops (Filesystem_close demo_heap 0)
             [OpConstruct "file://localhost"; OpRoot 0; OpClose 1; OpClose 0])
    0 "/a"
  = Raise StoreClosed.
Proof.
  apply (C3_closed_is_terminal demo_world demo_heap 0 _
           [OpConstruct "file://localhost"; OpRoot 0; OpClose 1; OpClose 0]
           "/a" eq_refl).
Defined.

(** ** Directories *)

Lemma Directory_init_total (w : World) (store : ref) (key : string) :
  exists names : list string,
    Directory_init w store key
    = Ok {| dir_store := store; dir_key := key; dir_names := names |}
    /\ names = match fs_listdir w key with inl _ => [] | inr l => l end.
Proof.
  unfold Directory_init, os.listdir.
  destruct (fs_listdir w key) as [e | l]; simpl; eexists; split; reflexivity.
Qed.

(** C2: constructing a directory never raises; it keeps the store, the
    key and the names listed at that moment; when the listing fails, the
    names are empty, the length is 0, and a pass over the directory, in
    any later world and heap, ends at once without a node. *)
Theorem C2_unlistable_directory_is_empty (w : World) (store : ref) (key : string) :
  exists d : Directory,
    Directory_init w store key = Ok d
    /\ Directory_store d = store
    /\ Directory_key d = key
    /\ (forall names : list string,
          fs_listdir w key = inr names -> dir_names d = names)
    /\ (forall e : errno,
          fs_listdir w key = inl e ->
          dir_names d = []
          /\ Directory_len d = 0%nat
          /\ forall (w' : World) (h' : Heap),
               DirIter_next w' h' (Directory_iter d) = StopIteration
               /\ forall fuel : nat,
                    consume (S fuel) w' h' (Directory_iter d) = ([], Exhausted)).
Proof.
  destruct (Directory_init_total w store key) as (names & Hd & Hn).
  eexists. split; [exact Hd |].
  split; [reflexivity |]. split; [reflexivity |].
  simpl. split.
  - intros l Hl. rewrite Hl in Hn. exact Hn.
  - intros e He. rewrite He in Hn. subst names.
    repeat split.
Qed.

Lemma C2_unlistable_directory_is_empty_witness :
  exists d : Directory,
    Directory_init demo_world 0 "/a/c" = Ok d
    /\ Directory_len d = 0%nat
    /\ consume 1 demo_world demo_heap (Directory_iter d) = ([], Exhausted).
Proof.
  destruct (C2_unlistable_directory_is_empty demo_world 0 "/a/c")
    as (d & Hd & _ & _ & _ & Hfail).
  destruct (Hfail EACCES eq_refl) as (_ & Hlen & Hit).
  exists d. split; [exact Hd |]. split; [exact Hlen |].
  apply (Hit demo_world demo_heap).
Defined.

(** *** The display name *)

Lemma rfind_lower_bound (c : ascii) (s : string) : -1 <= str.rfind c s.
Proof.
  induction s as [| a r IH]; simpl; [lia |].
  destruct (0 <=? str.rfind c r) eqn:E.
  - apply Z.leb_le in E. lia.
  - destruct (Ascii.eqb a c); lia.
Qed.

Lemma endswith_rfind (c : ascii) (s : string) :
  str.endswith c s = true -> 0 <= str.rfind c s.
Proof.
  induction s as [| a r IH]; [discriminate |].
  destruct r as [| b r'].
  - simpl. intros ->. lia.
  - intros H. change (str.endswith c (String b r') = true) in H.
    specialize (IH H).
    change (str.rfind c (String a (String b r')))
      with (let i := str.rfind c (String b r') in
            if 0 <=? i then i + 1 else if Ascii.eqb a c then 0 else -1).
    cbv zeta. apply Z.leb_le in IH as IH'. rewrite IH'. lia.
Qed.

Lemma basename_cons (a : ascii) (r : string) :
  op.basename (String a r)
  = if 0 <=? str.rfind sep r then op.basename r
    else if Ascii.eqb a sep then r else String a r.
Proof.
  unfold op.basename. simpl str.rfind.
  pose proof (rfind_lower_bound sep r) as Hlb.
  destruct (0 <=? str.rfind sep r) eqn:E.
  - apply Z.leb_le in E.
    replace (Z.to_nat (str.rfind sep r + 1 + 1))
      with (S (Z.to_nat (str.rfind sep r + 1))) by lia.
    reflexivity.
  - destruct (Ascii.eqb a sep); reflexivity.
Qed.

Lemma basename_empty_iff (p : string) :
  op.basename p = "" <-> p = "" \/ str.endswith sep p = true.
Proof.
  induction p as [| a r IH]; [split; auto |].
  rewrite basename_cons.
  destruct (0 <=? str.rfind sep r) eqn:E.
  - destruct r as [| b r']; [discriminate E |].
    change (str.endswith sep (String a (String b r')))
      with (str.endswith sep (String b r')).
    rewrite IH. split; intros [H | H]; try discriminate H; auto.
  - assert (Hend : str.endswith sep r = false).
    { destruct (str.endswith sep r) eqn:E'; [| reflexivity].
      apply endswith_rfind, Z.leb_le in E'. congruence. }
    destruct r as [| b r'].
    + simpl. destruct (Ascii.eqb a sep); split; auto.
      intros [H | H]; discriminate H.
    + change (str.endswith sep (String a (String b r')))
        with (str.endswith sep (String b r')).
      rewrite Hend.
      destruct (Ascii.eqb a sep); split; try discriminate;
        intros [H | H]; discriminate H.
Qed.

Lemma length_zero_iff_empty (s : string) :
  (String.length s =? 0)%nat = str.is_empty s.
Proof. destruct s; reflexivity. Qed.

(** C8, as stated, fails: a directory whose key ends with the separator
    and is not the root key has an empty basename, and its display name is
    the separator, not that basename. *)
Lemma C8_counterexample :
  Store_getitem demo_world demo_heap 0 "/a/" = Ok (DirectoryNode dir_a_slash)
  /\ Directory_key dir_a_slash <> "/"
  /\ op.basename (Directory_key dir_a_slash) = ""
  /\ Directory_display_name dir_a_slash = "/"
  /\ Directory_display_name dir_a_slash <> op.basename (Directory_key dir_a_slash).
Proof. repeat split; discriminate. Qed.

(** C8, amended: the display name of a directory is the basename of its
    key whenever that basename is not empty, and the separator whenever it
    is empty, which is the case exactly for the empty key and the keys
    that end with the separator, the root key among them; it is never the
    empty string. *)
Theorem C8_display_name (d : Directory) :
  Directory_display_name d
  = (if str.is_empty (op.basename (Directory_key d)) then "/"
     else op.basename (Directory_key d))
  /\ (op.basename (Directory_key d) <> "" ->
      Directory_display_name d = op.basename (Directory_key d))
  /\ (op.basename (Directory_key d) = "" <->
      Directory_key d = "" \/ str.endswith sep (Directory_key d) = true)
  /\ (Directory_key d = "" \/ str.endswith sep (Directory_key d) = true ->
      Directory_display_name d = "/")
  /\ (Directory_key d = "/" -> Directory_display_name d = "/")
  /\ Directory_display_name d <> "".
Proof.
  unfold Directory_display_name. cbv zeta.
  rewrite length_zero_iff_empty.
  split; [reflexivity |].
  split; [destruct (op.basename (Directory_key d)); [congruence | reflexivity] |].
  split; [apply basename_empty_iff |].
  split; [intros H; apply basename_empty_iff in H; rewrite H; reflexivity |].
  split; [intros ->; reflexivity |].
  destruct (op.basename (Directory_key d)); discriminate.
Qed.

Lemma C8_display_name_witness :
  Directory_display_name {| dir_store := 0; dir_key := "/"; dir_names := ["a"] |} = "/"
  /\ Directory_display_name dir_a_slash = "/"
  /\ Directory_display_name {| dir_store := 0; dir_key := "/a/c"; dir_names := [] |} = "c".
Proof.
  split.
  { destruct (C8_display_name {| dir_store := 0; dir_key := "/"; dir_names := ["a"] |})
      as (_ & _ & _ & _ & Hroot & _).
    apply Hroot. reflexivity. }
  split.
  { destruct (C8_display_name dir_a_slash) as (_ & _ & _ & Hsep & _ & _).
    apply Hsep. right. reflexivity. }
  destruct (C8_display_name {| dir_store := 0; dir_key := "/a/c"; dir_names := [] |})
    as (_ & Hbn & _ & _ & _ & _).
  apply Hbn. discriminate.
Defined.

(** ** Files *)

(** C7: [shape] is the one-component tuple of the size the file system
    reports when [shape] is queried, whatever the world was when the node
    was made; [dtype] is the unsigned integer type of 8 bits. *)
Theorem C7_shape_is_current_size (w0 w : World) (store : ref) (key : string)
    (f : File) (size : nat) :
  File_init w0 store key = Ok f ->
  fs_getsize w key = inr size ->
  File_shape w f = Ok [size]
  /\ File_shape w f = (fun n : nat => [n]) <$> op.getsize w (File_key f)
  /\ File_dtype f = Ok np.uint8
  /\ np.kind np.uint8 = np.UnsignedInt
  /\ np.bits np.uint8 = 8%nat.
Proof.
  intros Hf Hs. injection Hf as <-.
  unfold File_shape, op.getsize, File_key. simpl. rewrite Hs.
  repeat split.
Qed.

Lemma C7_shape_is_current_size_witness :
  File_shape demo_world {| file_store := 0; file_key := "/a/b" |} = Ok [4%nat]
  /\ File_shape demo_world_grown {| file_store := 0; file_key := "/a/b" |} = Ok [6%nat].
Proof.
  split.
  - apply (C7_shape_is_current_size demo_world demo_world 0 "/a/b" _ 4 eq_refl eq_refl).
  - apply (C7_shape_is_current_size demo_world demo_world_grown 0 "/a/b" _ 6
             eq_refl eq_refl).
Defined.










(** ** Paths: the parent of a joined key *)

Lemma rfind_app_sep (c : ascii) (p name : string) :
  str.rfind c name = -1 ->
  str.rfind c (p ++ String c name)%string = Z.of_nat (String.length p).
Proof.
  intros Hn. induction p as [| a p IH].
  - simpl. rewrite Hn. simpl. rewrite Ascii.eqb_refl. reflexivity.
  - change (str.rfind c (String a p ++ String c name)%string)
      with (let i := str.rfind c (p ++ String c name)%string in
            if 0 <=? i then i + 1 else if Ascii.eqb a c then 0 else -1).
    cbv zeta. rewrite IH.
    replace (0 <=? Z.of_nat (String.length p)) with true
      by (symmetry; apply Z.leb_le; lia).
    simpl String.length. lia.
Qed.

Lemma take_app_sep (c : ascii) (p name : string) :
  str.take (S (String.length p)) (p ++ String c name)%string
  = (p ++ String c "")%string.
Proof.
  induction p as [| a p IH]; [reflexivity |].
  simpl in *. rewrite IH. reflexivity.
Qed.

Lemma endswith_split (c : ascii) (p : string) :
  str.endswith c p = true -> exists q : string, p = (q ++ String c "")%string.
Proof.
  induction p as [| a r IH]; [discriminate |].
  destruct r as [| b r'].
  - simpl. intros H. apply Ascii.eqb_eq in H. subst a. exists "". reflexivity.
  - intros H. change (str.endswith c (String b r') = true) in H.
    destruct (IH H) as (q & Hq). exists (String a q). simpl. rewrite <- Hq.
    reflexivity.
Qed.

Lemma all_eq_false (c : ascii) (p : string) :
  p <> "" -> str.endswith c p = false -> str.all_eq c p = false.
Proof.
  induction p as [| a r IH]; [congruence |].
  intros _ H. destruct r as [| b r'].
  - simpl in *. rewrite H. reflexivity.
  - change (str.endswith c (String b r') = false) in H.
    change (str.all_eq c (String a (String b r')))
      with (Ascii.eqb a c && str.all_eq c (String b r')).
    rewrite (IH ltac:(discriminate) H).
    apply andb_false_r.
Qed.

Lemma all_eq_app_false (c : ascii) (p s : string) :
  str.all_eq c p = false -> str.all_eq c (p ++ s)%string = false.
Proof.
  induction p as [| a r IH]; [discriminate |].
  simpl. destruct (Ascii.eqb a c); simpl; auto.
Qed.

Lemma rstrip_app_sep (c : ascii) (p : string) :
  str.endswith c p = false -> str.rstrip c (p ++ String c "")%string = p.
Proof.
  induction p as [| a r IH]; intros H.
  - simpl. rewrite Ascii.eqb_refl. reflexivity.
  - destruct r as [| b r'].
    + simpl in *. rewrite Ascii.eqb_refl, H. reflexivity.
    + change (str.endswith c (String b r') = false) in H.
      specialize (IH H).
      change (str.rstrip c (String a (String b r') ++ String c "")%string)
        with (match str.rstrip c (String b r' ++ String c "")%string with
              | EmptyString =>
                  if Ascii.eqb a c then EmptyString else String a EmptyString
              | r0 => String a r0
              end).
      rewrite IH. reflexivity.
Qed.

Lemma app_snoc_cons (q : string) (c : ascii) (s : string) :
  ((q ++ String c "") ++ s)%string = (q ++ String c s)%string.
Proof. induction q as [| a q IH]; simpl; congruence. Qed.

Lemma is_empty_snoc (q : string) (c : ascii) :
  str.is_empty (q ++ String c "")%string = false.
Proof. destruct q; reflexivity. Qed.

Lemma rfind_none_startswith (c : ascii) (s : string) :
  str.rfind c s = -1 -> str.startswith c s = false.
Proof.
  destruct s as [| a r]; [reflexivity |].
  simpl. pose proof (rfind_lower_bound c r).
  destruct (0 <=? str.rfind c r) eqn:E; [apply Z.leb_le in E; lia |].
  destruct (Ascii.eqb a c); [discriminate | reflexivity].
Qed.

(** Joining a name without separator to a directory key and taking the
    directory component gives the directory key back, for a key that is
    empty, all separators, or does not end with one. *)
Lemma dirname_join (p name : string) :
  str.rfind sep name = -1 ->
  str.endswith sep p = false \/ str.all_eq sep p = true ->
  op.dirname (op.join p name) = p.
Proof.
  intros Hname Hp. unfold op.join.
  rewrite (rfind_none_startswith _ _ Hname).
  destruct p as [| a0 p0] eqn:Ep.
  { simpl. unfold op.dirname. rewrite Hname. reflexivity. }
  rewrite <- Ep in *. assert (Hne : p <> "") by (subst p; discriminate).
  replace (str.is_empty p) with false by (subst p; reflexivity).
  simpl orb. clear Ep a0 p0.
  destruct (str.endswith sep p) eqn:Eend.
  - destruct Hp as [Hp | Hp]; [discriminate |].
    destruct (endswith_split _ _ Eend) as (q & ->).
    rewrite app_snoc_cons. unfold op.dirname.
    rewrite (rfind_app_sep _ _ _ Hname).
    replace (Z.to_nat (Z.of_nat (String.length q) + 1)) with (S (String.length q)) by lia.
    rewrite take_app_sep, is_empty_snoc, Hp. reflexivity.
  - unfold op.dirname.
    rewrite (rfind_app_sep _ _ _ Hname).
    replace (Z.to_nat (Z.of_nat (String.length p) + 1)) with (S (String.length p)) by lia.
    rewrite take_app_sep, is_empty_snoc.
    rewrite (all_eq_app_false _ _ _ (all_eq_false _ _ Hne Eend)).
    simpl. apply rstrip_app_sep. exact Eend.
Qed.

(** ** Resolution *)

Lemma dispatch_Ok (w : World) (self : ref) (key : string) (n : Node) :
  dispatch w self key Filesystem_nodeclasses = Ok n ->
  Node_key n = key /\ Node_store n = self.
Proof.
  unfold Filesystem_nodeclasses, push. simpl.
  destruct (File_can_handle w self key).
  - intros [= <-]. split; reflexivity.
  - destruct (Directory_can_handle w self key); [| discriminate].
    destruct (Directory_init_total w self key) as (names & -> & _).
    intros [= <-]. split; reflexivity.
Qed.

Lemma dispatch_raises (w : World) (self : ref) (key : string) (e : exn) :
  dispatch w self key Filesystem_nodeclasses = Raise e -> e = NoMatch key.
Proof.
  unfold Filesystem_nodeclasses, push. simpl.
  destruct (File_can_handle w self key); [discriminate |].
  destruct (Directory_can_handle w self key); [| congruence].
  destruct (Directory_init_total w self key) as (names & -> & _).
  discriminate.
Qed.

Lemma getitem_Ok (w : World) (h : Heap) (self : ref) (key : string) (n : Node) :
  Store_getitem w h self key = Ok n -> Node_key n = key /\ Node_store n = self.
Proof.
  unfold Store_getitem. destruct (deref h self) as [s | e]; simpl; [| discriminate].
  destruct (_valid s); [apply dispatch_Ok | discriminate].
Qed.

Lemma getitem_raises (w : World) (h : Heap) (self : ref) (key : string) (e : exn) :
  Store_getitem w h self key = Raise e ->
  e = UnboundRef \/ e = StoreClosed \/ e = NoMatch key.
Proof.
  unfold Store_getitem, deref. destruct (h !! self) as [s |]; simpl.
  - destruct (_valid s).
    + intros H. apply dispatch_raises in H. auto.
    + intros [= <-]. auto.
  - intros [= <-]. auto.
Qed.

Lemma getitem_handled (w : World) (h : Heap) (self : ref) (s : Filesystem)
    (key : string) :
  h !! self = Some s -> _valid s = true ->
  op.isfile w key = true \/ op.isdir w key = true ->
  exists n : Node, Store_getitem w h self key = Ok n.
Proof.
  intros Hs Hv Hk. unfold Store_getitem.
  rewrite (deref_Some _ _ _ Hs). simpl. rewrite Hv.
  unfold Filesystem_nodeclasses, push. simpl.
  unfold File_can_handle, Directory_can_handle.
  destruct (op.isfile w key); [eexists; reflexivity |].
  destruct Hk as [Hk | Hk]; [discriminate |]. rewrite Hk.
  destruct (Directory_init_total w self key) as (names & -> & _).
  eexists. reflexivity.
Qed.

(** C6: the parent of the root key is [None]; for every other key the
    parent is whatever the store resolves at the directory component of
    the key, a node with that key when the resolution succeeds.  For the
    key a directory forms for one of its names, the directory component is
    the directory's own key. *)
Theorem C6_get_parent (w : World) (h : Heap) (self : ref) (key : string) :
  Filesystem_get_parent w h self "/" = Ok None
  /\ (key <> "/" ->
      Filesystem_get_parent w h self key
      = Some <$> Store_getitem w h self (op.dirname key))
  /\ (key <> "/" ->
      forall n : Node,
        Store_getitem w h self (op.dirname key) = Ok n ->
        Filesystem_get_parent w h self key = Ok (Some n)
        /\ Node_key n = op.dirname key)
  /\ (forall p name : string,
        key = op.join p name ->
        name <> "" ->
        str.rfind sep name = -1 ->
        str.endswith sep p = false \/ str.all_eq sep p = true ->
        op.dirname key = p
        /\ Filesystem_get_parent w h self key = Some <$> Store_getitem w h self p).
Proof.
  assert (Hne : key <> "/" ->
                Filesystem_get_parent w h self key
                = Some <$> Store_getitem w h self (op.dirname key)).
  { intros Hk. unfold Filesystem_get_parent.
    apply String.eqb_neq in Hk. rewrite Hk. reflexivity. }
  split; [reflexivity |].
  split; [exact Hne |].
  split.
  - intros Hk n Hn. rewrite (Hne Hk), Hn.
    split; [reflexivity |]. apply (getitem_Ok _ _ _ _ _ Hn).
  - intros p name -> Hname Hsep Hp.
    pose proof (dirname_join p name Hsep Hp) as Hd.
    split; [exact Hd |].
    rewrite <- Hd at 2. apply Hne.
    intros Hroot. rewrite Hroot in Hd. simpl in Hd. subst p.
    unfold op.join in Hroot.
    rewrite (rfind_none_startswith _ _ Hsep) in Hroot. simpl in Hroot.
    injection Hroot as Hroot. contradiction.
Qed.

Lemma C6_get_parent_witness :
  Filesystem_get_parent demo_world demo_heap 0 "/" = Ok None
  /\ Filesystem_get_parent demo_world demo_heap 0 "/a/b"
     = Some <$> Store_getitem demo_world demo_heap 0 "/a".
Proof.
  split.
  - apply (C6_get_parent demo_world demo_heap 0 "/").
  - destruct (C6_get_parent demo_world demo_heap 0 "/a/b") as (_ & _ & _ & Hjoin).
    apply (Hjoin "/a" "b"); [reflexivity | discriminate | reflexivity |].
    left. reflexivity.
Defined.

(** ** Indexing and iterating a directory *)

Lemma py_getitem_nat {A : Type} (l : list A) (i : nat) (x : A) :
  l !! i = Some x -> py_getitem l (Z.of_nat i) = Ok x.
Proof.
  intros H. pose proof (lookup_lt_Some _ _ _ H) as Hlt.
  destruct (py_getitem_in_range l (Z.of_nat i) ltac:(lia)) as (y & Hy & Hl).
  replace (Z.of_nat i <? 0) with false in Hl by (symmetry; apply Z.ltb_ge; lia).
  rewrite Nat2Z.id in Hl. congruence.
Qed.

(** C9: [d[i]] raises [IndexError] exactly when [i >= len(d)] or
    [i < -len(d)].  An index in [0 <= i < len(d)] resolves the child for
    the captured name at position [i]; an index in [-len(d) <= i < 0] is
    accepted and resolves the child for the name at position
    [i + len(d)], counting from the end, so that [d[i]] is [d[i + len(d)]]
    and [d[-1]] resolves the last captured name. *)
Theorem C9_index_range (w : World) (h : Heap) (d : Directory) (i : Z) :
  (Directory_getitem w h d i = Raise IndexError
   <-> i >= Z.of_nat (Directory_len d) \/ i < - Z.of_nat (Directory_len d))
  /\ (0 <= i < Z.of_nat (Directory_len d) ->
      exists name : string,
        dir_names d !! Z.to_nat i = Some name
        /\ Directory_getitem w h d i
           = Store_getitem w h (Directory_store d)
               (op.join (Directory_key d) name))
  /\ (- Z.of_nat (Directory_len d) <= i < 0 ->
      exists name : string,
        dir_names d !! Z.to_nat (i + Z.of_nat (Directory_len d)) = Some name
        /\ reverse (dir_names d) !! Z.to_nat (- i - 1) = Some name
        /\ Directory_getitem w h d i
           = Store_getitem w h (Directory_store d)
               (op.join (Directory_key d) name))
  /\ (- Z.of_nat (Directory_len d) <= i < 0 ->
      Directory_getitem w h d i
      = Directory_getitem w h d (i + Z.of_nat (Directory_len d)))
  /\ (forall (names : list string) (last : string),
        dir_names d = (names ++ [last])%list ->
        Directory_getitem w h d (-1)
        = Store_getitem w h (Directory_store d) (op.join (Directory_key d) last)).
Proof.
  unfold Directory_len, Directory_getitem.
  split; [split |]; [| | split; [| split; [| split]]].
  - intros H.
    destruct (Z_lt_ge_dec i (- Z.of_nat (length (dir_names d)))) as [Hlo | Hlo];
      [right; exact Hlo |].
    destruct (Z_lt_ge_dec i (Z.of_nat (length (dir_names d)))) as [Hhi | Hhi];
      [| left; exact Hhi].
    destruct (py_getitem_in_range (dir_names d) i ltac:(lia)) as (name & Hn & _).
    rewrite Hn in H. simpl in H.
    apply getitem_raises in H. destruct H as [H | [H | H]]; discriminate.
  - intros H. rewrite (py_getitem_out_of_range _ _ H). reflexivity.
  - intros Hi.
    destruct (py_getitem_in_range (dir_names d) i ltac:(lia)) as (x & -> & Hx).
    replace (i <? 0) with false in Hx by (symmetry; apply Z.ltb_ge; lia).
    exists x. split; [exact Hx | reflexivity].
  - intros Hi.
    destruct (py_getitem_in_range (dir_names d) i ltac:(lia)) as (x & -> & Hx).
    replace (i <? 0) with true in Hx by (symmetry; apply Z.ltb_lt; lia).
    exists x. split; [exact Hx |]. split; [| reflexivity].
    rewrite reverse_lookup by lia.
    rewrite <- Hx. f_equal. lia.
  - intros Hi.
    destruct (py_getitem_in_range (dir_names d) i ltac:(lia)) as (x & -> & Hx).
    destruct (py_getitem_in_range (dir_names d)
                (i + Z.of_nat (length (dir_names d))) ltac:(lia)) as (y & -> & Hy).
    replace (i <? 0) with true in Hx by (symmetry; apply Z.ltb_lt; lia).
    replace (i + Z.of_nat (length (dir_names d)) <? 0) with false in Hy
      by (symmetry; apply Z.ltb_ge; lia).
    congruence.
  - intros names last Hd. rewrite Hd.
    destruct (py_getitem_in_range (names ++ [last])%list (-1)) as (x & -> & Hx).
    { rewrite length_app. simpl. lia. }
    simpl in Hx. rewrite length_app in Hx. simpl in Hx.
    replace (Z.to_nat (-1 + Z.of_nat (length names + 1))) with (length names) in Hx
      by lia.
    rewrite list_lookup_middle in Hx by reflexivity.
    injection Hx as <-. reflexivity.
Qed.

Lemma C9_index_range_witness :
  Directory_getitem demo_world demo_heap dir_a_slash (-2)
  = Directory_getitem demo_world demo_heap dir_a_slash 2
  /\ (exists name : string,
        reverse (dir_names dir_a_slash) !! 1%nat = Some name
        /\ Directory_getitem demo_world demo_heap dir_a_slash (-2)
           = Store_getitem demo_world demo_heap 0 (op.join "/a/" name))
  /\ Directory_getitem demo_world demo_heap dir_a_slash (-5) = Raise IndexError
  /\ Directory_getitem demo_world demo_heap dir_a_slash 4 = Raise IndexError.
Proof.
  split; [| split; [| split]].
  - destruct (C9_index_range demo_world demo_heap dir_a_slash (-2))
      as (_ & _ & _ & Hneg & _).
    apply Hneg. unfold Directory_len, dir_a_slash. simpl. lia.
  - destruct (C9_index_range demo_world demo_heap dir_a_slash (-2))
      as (_ & _ & Hend & _).
    destruct Hend as (name & _ & Hrev & Hget);
      [unfold Directory_len, dir_a_slash; simpl; lia |].
    exists name. split; [exact Hrev | exact Hget].
  - destruct (C9_index_range demo_world demo_heap dir_a_slash (-5)) as (Hout & _).
    apply Hout. unfold Directory_len, dir_a_slash. simpl. lia.
  - destruct (C9_index_range demo_world demo_heap dir_a_slash 4) as (Hout & _).
    apply Hout. unfold Directory_len, dir_a_slash. simpl. lia.
Defined.

Section Pass.

Variables (w : World) (h : Heap) (d : Directory).

Implicit Types (rest names : list string) (nodes : list Node).

Lemma consume_fuel (rest : list string) (fuel1 fuel2 : nat) :
  (length rest < fuel1)%nat -> (length rest < fuel2)%nat ->
  consume fuel1 w h {| it_self := d; it_rest := rest |}
  = consume fuel2 w h {| it_self := d; it_rest := rest |}.
Proof.
  revert fuel1 fuel2.
  induction rest as [| name rest IH]; intros fuel1 fuel2 H1 H2;
    destruct fuel1 as [| fuel1]; destruct fuel2 as [| fuel2];
    simpl in H1, H2; try lia; [reflexivity |].
  simpl. unfold DirIter_next. simpl.
  destruct (Store_getitem w h (dir_store d) (op.join (Directory_key d) name));
    [| reflexivity].
  rewrite (IH fuel1 fuel2) by lia. reflexivity.
Qed.

Lemma consume_prefix (rest : list string) (fuel : nat) :
  (length rest < fuel)%nat ->
  snd (consume fuel w h {| it_self := d; it_rest := rest |}) <> OutOfFuel
  /\ Forall2 (child_resolves w h d)
       (take (length (fst (consume fuel w h {| it_self := d; it_rest := rest |})))
             rest)
       (fst (consume fuel w h {| it_self := d; it_rest := rest |}))
  /\ (snd (consume fuel w h {| it_self := d; it_rest := rest |}) = Exhausted ->
      length (fst (consume fuel w h {| it_self := d; it_rest := rest |}))
      = length rest)
  /\ (forall e : exn,
        snd (consume fuel w h {| it_self := d; it_rest := rest |}) = Raised e ->
        exists name : string,
          rest !! length (fst (consume fuel w h {| it_self := d; it_rest := rest |}))
          = Some name
          /\ Store_getitem w h (dir_store d) (op.join (Directory_key d) name)
             = Raise e).
Proof.
  revert fuel.
  induction rest as [| name rest IH]; intros fuel Hf;
    destruct fuel as [| fuel]; simpl in Hf; try lia.
  - simpl. repeat split; try discriminate. constructor.
  - simpl. unfold DirIter_next. simpl.
    destruct (Store_getitem w h (dir_store d) (op.join (Directory_key d) name))
      as [n | e0] eqn:E.
    + destruct (IH fuel ltac:(lia)) as (Hfuel & Hpre & Hlen & Hraise).
      destruct (consume fuel w h {| it_self := d; it_rest := rest |}) as [nodes o]. simpl in *.
      split; [exact Hfuel |].
      split; [constructor; [exact E | exact Hpre] |].
      split; [intros Ho; rewrite (Hlen Ho); reflexivity |].
      exact Hraise.
    + simpl. split; [discriminate |].
      split; [constructor |].
      split; [discriminate |].
      intros e [= <-]. exists name. split; [reflexivity | exact E].
Qed.

Lemma consume_complete (rest : list string) (fuel : nat) :
  (length rest < fuel)%nat ->
  Forall (fun name : string => exists n : Node, child_resolves w h d name n) rest ->
  snd (consume fuel w h {| it_self := d; it_rest := rest |}) = Exhausted.
Proof.
  revert fuel.
  induction rest as [| name rest IH]; intros fuel Hf Hall;
    destruct fuel as [| fuel]; simpl in Hf; try lia; [reflexivity |].
  apply Forall_cons in Hall. destruct Hall as [(n & Hn) Hall].
  simpl. unfold DirIter_next. simpl. unfold child_resolves in Hn. rewrite Hn.
  specialize (IH fuel ltac:(lia) Hall).
  destruct (consume fuel w h {| it_self := d; it_rest := rest |}) as [nodes o]. exact IH.
Qed.

Lemma resolves_keys (names : list string) (nodes : list Node) :
  Forall2 (child_resolves w h d) names nodes ->
  map Node_key nodes = map (op.join (Directory_key d)) names.
Proof.
  induction 1 as [| name n names nodes Hn _ IH]; [reflexivity |].
  simpl. rewrite IH. f_equal. apply (getitem_Ok _ _ _ _ _ Hn).
Qed.

Lemma advances_self (g g' : DirIter) :
  advances w h g g' -> it_self g' = it_self g.
Proof.
  induction 1 as [g | g g1 g2 n Hstep _ IH | g g1 g2 e Hstep _ IH];
    [reflexivity | |];
    rewrite IH; unfold DirIter_next in Hstep;
    destruct (it_rest g) as [| name rest]; try discriminate;
    destruct (Store_getitem w h _ _); inversion Hstep; reflexivity.
Qed.

End Pass.

(** C4, as stated, fails: the directory the store resolves at ["/a/"]
    holds four names, the last of which is neither a file nor a
    directory; a pass over it yields three nodes and then raises, and
    [d[3]] is no node. *)
Lemma C4_counterexample :
  Store_getitem demo_world demo_heap 0 "/a/" = Ok (DirectoryNode dir_a_slash)
  /\ Directory_len dir_a_slash = 4%nat
  /\ consume 5 demo_world demo_heap (Directory_iter dir_a_slash)
     = ([FileNode {| file_store := 0; file_key := "/a/b" |};
         DirectoryNode {| dir_store := 0; dir_key := "/a/c"; dir_names := [] |};
         FileNode {| file_store := 0; file_key := "/a/d" |}],
        Raised (NoMatch "/a/e"))
  /\ length (fst (consume 5 demo_world demo_heap (Directory_iter dir_a_slash)))
     <> Directory_len dir_a_slash
  /\ Directory_getitem demo_world demo_heap dir_a_slash 3
     = Raise (NoMatch "/a/e").
Proof. repeat split; discriminate. Qed.

(** C4, amended: a pass over a directory ends within [len(d) + 1] calls
    of [next()], and more fuel changes nothing.  Every node it yields is
    the node [d[i]] of its position, resolved at the join of the key with
    the [i]-th captured name.  A pass that runs to exhaustion yields
    exactly [len(d)] nodes, and it does run to exhaustion when the store
    is valid and every child key is a file or a directory; a pass that
    raises does so at a position below [len(d)], with the exception
    [d[i]] raises there.  A generator in progress leaves the directory as
    it was, so that [__iter__] starts again from the first name; the
    names are those captured when the directory was made, in whatever
    world the pass runs. *)
Theorem C4_len_iter_getitem_agree (w : World) (h : Heap) (d : Directory) :
  (forall fuel : nat,
     (Directory_len d < fuel)%nat ->
     consume fuel w h (Directory_iter d)
     = consume (S (Directory_len d)) w h (Directory_iter d)
     /\ snd (consume fuel w h (Directory_iter d)) <> OutOfFuel)
  /\ (forall (i : nat) (n : Node),
        fst (consume (S (Directory_len d)) w h (Directory_iter d)) !! i = Some n ->
        Directory_getitem w h d (Z.of_nat i) = Ok n
        /\ exists name : string,
             dir_names d !! i = Some name
             /\ Node_key n = op.join (Directory_key d) name)
  /\ (snd (consume (S (Directory_len d)) w h (Directory_iter d)) = Exhausted ->
      length (fst (consume (S (Directory_len d)) w h (Directory_iter d)))
      = Directory_len d
      /\ map Node_key (fst (consume (S (Directory_len d)) w h (Directory_iter d)))
         = map (op.join (Directory_key d)) (dir_names d)
      /\ forall i : Z,
           0 <= i < Z.of_nat (Directory_len d) ->
           exists n : Node,
             fst (consume (S (Directory_len d)) w h (Directory_iter d))
               !! Z.to_nat i = Some n
             /\ Directory_getitem w h d i = Ok n)
  /\ (forall e : exn,
        snd (consume (S (Directory_len d)) w h (Directory_iter d)) = Raised e ->
        (length (fst (consume (S (Directory_len d)) w h (Directory_iter d)))
         < Directory_len d)%nat
        /\ Directory_getitem w h d
             (Z.of_nat
                (length (fst (consume (S (Directory_len d)) w h
                                (Directory_iter d)))))
           = Raise e)
  /\ (forall s : Filesystem,
        h !! Directory_store d = Some s ->
        _valid s = true ->
        (forall name : string,
           name ∈ dir_names d ->
           op.isfile w (op.join (Directory_key d) name) = true
           \/ op.isdir w (op.join (Directory_key d) name) = true) ->
        snd (consume (S (Directory_len d)) w h (Directory_iter d)) = Exhausted)
  /\ (forall g : DirIter,
        advances w h (Directory_iter d) g ->
        Directory_iter (it_self g) = Directory_iter d)
  /\ (forall (w0 : World) (store : ref) (key : string) (names0 : list string),
        Directory_init w0 store key = Ok d ->
        fs_listdir w0 key = inr names0 ->
        it_rest (Directory_iter d) = names0).
Proof.
  unfold Directory_len, Directory_iter.
  pose proof (consume_prefix w h d (dir_names d) (S (length (dir_names d)))
                ltac:(lia)) as Hrun.
  destruct Hrun as (Hfuel & Hpre & Hlen & Hraise).
  assert (Hpos : forall (i : nat) (n : Node),
            fst (consume (S (length (dir_names d))) w h
                   {| it_self := d; it_rest := dir_names d |}) !! i = Some n ->
            exists name : string,
              dir_names d !! i = Some name
              /\ Store_getitem w h (dir_store d) (op.join (Directory_key d) name)
                 = Ok n).
  { intros i n Hi.
    destruct (Forall2_lookup_r _ _ _ _ _ Hpre Hi) as (name & Hname & Hres).
    apply lookup_take_Some in Hname. destruct Hname as [Hname _].
    exists name. split; [exact Hname | exact Hres]. }
  assert (Hget : forall (i : nat) (n : Node),
            fst (consume (S (length (dir_names d))) w h
                   {| it_self := d; it_rest := dir_names d |}) !! i = Some n ->
            Directory_getitem w h d (Z.of_nat i) = Ok n).
  { intros i n Hi. destruct (Hpos i n Hi) as (name & Hname & Hres).
    unfold Directory_getitem. rewrite (py_getitem_nat _ _ _ Hname). exact Hres. }
  split.
  { intros fuel Hf.
    rewrite (consume_fuel w h d (dir_names d) fuel (S (length (dir_names d))))
      by lia.
    split; [reflexivity | exact Hfuel]. }
  split.
  { intros i n Hi. split; [apply Hget; exact Hi |].
    destruct (Hpos i n Hi) as (name & Hname & Hres).
    exists name. split; [exact Hname |]. apply (getitem_Ok _ _ _ _ _ Hres). }
  split.
  { intros Ho. specialize (Hlen Ho).
    split; [exact Hlen |].
    rewrite Hlen, take_ge in Hpre by lia.
    split; [apply (resolves_keys w h d _ _ Hpre) |].
    intros i Hi.
    destruct (lookup_lt_is_Some_2
                (fst (consume (S (length (dir_names d))) w h
                        {| it_self := d; it_rest := dir_names d |}))
                (Z.to_nat i) ltac:(lia)) as (n & Hn).
    exists n. split; [exact Hn |].
    rewrite <- (Z2Nat.id i) by lia. apply Hget. exact Hn. }
  split.
  { intros e He. destruct (Hraise e He) as (name & Hname & Hres).
    split; [apply (lookup_lt_Some _ _ _ Hname) |].
    unfold Directory_getitem. rewrite (py_getitem_nat _ _ _ Hname). exact Hres. }
  split.
  { intros s Hs Hv Hall.
    apply (consume_complete w h d); [lia |].
    apply Forall_forall. intros name Hname.
    apply (getitem_handled w h _ s _ Hs Hv). apply Hall. exact Hname. }
  split.
  { intros g Hg. apply advances_self in Hg. simpl in Hg. rewrite Hg. reflexivity. }
  intros w0 store key names0 Hd Hl.
  destruct (Directory_init_total w0 store key) as (names & Hd' & Hn).
  rewrite Hl in Hn. subst names. rewrite Hd' in Hd. injection Hd as <-. reflexivity.
Qed.

Lemma C4_len_iter_getitem_agree_witness :
  consume 2 demo_world demo_heap (Directory_iter dir_root)
  = consume (S (Directory_len dir_root)) demo_world demo_heap (Directory_iter dir_root)
  /\ snd (consume (S (Directory_len dir_root)) demo_world demo_heap
            (Directory_iter dir_root)) = Exhausted
  /\ length (fst (consume (S (Directory_len dir_root)) demo_world demo_heap
                    (Directory_iter dir_root)))
     = Directory_len dir_root.
Proof.
  destruct (C4_len_iter_getitem_agree demo_world demo_heap dir_root)
    as (Hfuel & _ & Hdone & _ & Hvalid & _).
  assert (Hex : snd (consume (S (Directory_len dir_root)) demo_world demo_heap
                       (Directory_iter dir_root)) = Exhausted).
  { apply (Hvalid _ eq_refl eq_refl).
    intros name Hname. apply list_elem_of_singleton in Hname. subst name.
    right. reflexivity. }
  split; [apply Hfuel; unfold Directory_len, dir_root; simpl; lia |].
  split; [exact Hex |].
  apply Hdone. exact Hex.
Defined.

(** * Further properties *)

(** ** Children, parents and names *)

Lemma drop_app_sep (c : ascii) (p name : string) :
  str.drop (S (String.length p)) (p ++ String c name)%string = name.
Proof. induction p as [| a p IH]; [reflexivity | exact IH]. Qed.

Lemma join_cases (p name : string) :
  str.rfind sep name = -1 ->
  op.join p name = name /\ p = ""
  \/ exists q : string, op.join p name = (q ++ String sep name)%string.
Proof.
  intros Hname. unfold op.join.
  rewrite (rfind_none_startswith _ _ Hname).
  destruct p as [| a0 p0] eqn:Ep; [left; split; reflexivity |].
  rewrite <- Ep. replace (str.is_empty p) with false by (subst p; reflexivity).
  simpl orb. right.
  destruct (str.endswith sep p) eqn:Eend.
  - destruct (endswith_split _ _ Eend) as (q & ->).
    exists q. apply app_snoc_cons.
  - exists p. reflexivity.
Qed.

Lemma basename_join (p name : string) :
  str.rfind sep name = -1 -> op.basename (op.join p name) = name.
Proof.
  intros Hname.
  destruct (join_cases p name Hname) as [[-> _] | (q & ->)]; unfold op.basename.
  - rewrite Hname. reflexivity.
  - rewrite (rfind_app_sep _ _ _ Hname).
    replace (Z.to_nat (Z.of_nat (String.length q) + 1)) with (S (String.length q))
      by lia.
    apply drop_app_sep.
Qed.

Lemma join_not_root (p name : string) :
  name <> "" -> str.rfind sep name = -1 -> op.join p name <> "/".
Proof.
  intros Hne Hname Hroot.
  pose proof (basename_join p name Hname) as Hb.
  rewrite Hroot in Hb. change (op.basename "/") with EmptyString in Hb. congruence.
Qed.

Lemma display_name_of_key (n : Node) (name : string) :
  name <> "" -> op.basename (Node_key n) = name -> Node_display_name n = name.
Proof.
  intros Hne Hb. destruct n as [d | f]; simpl in *.
  - unfold Directory_display_name, Directory_key. cbv zeta.
    rewrite Hb, length_zero_iff_empty.
    destruct name; [exfalso; apply Hne; reflexivity | reflexivity].
  - exact Hb.
Qed.

(** X1: the child a directory resolves for one of its names has the join
    of the directory key and the name as key, the directory's store as
    store, and the name itself as display name, for every non-empty name
    without separator. *)
Theorem X1_child_of_directory (w : World) (h : Heap) (d : Directory) (i : Z)
    (name : string) (n : Node) :
  py_getitem (dir_names d) i = Ok name ->
  name <> "" ->
  str.rfind sep name = -1 ->
  Directory_getitem w h d i = Ok n ->
  Node_key n = op.join (Directory_key d) name
  /\ Node_store n = Directory_store d
  /\ Node_display_name n = name.
Proof.
  intros Hi Hne Hname Hn. unfold Directory_getitem in Hn. rewrite Hi in Hn.
  simpl in Hn. destruct (getitem_Ok _ _ _ _ _ Hn) as [Hk Hs].
  split; [exact Hk |]. split; [exact Hs |].
  apply display_name_of_key; [exact Hne |].
  rewrite Hk. apply basename_join. exact Hname.
Qed.

Lemma X1_child_of_directory_witness :
  Node_display_name
    (DirectoryNode {| dir_store := 0; dir_key := "/a";
                      dir_names := ["b"; "c"; "d"; "e"] |}) = "a".
Proof.
  destruct (X1_child_of_directory demo_world demo_heap dir_root 0 "a"
              (DirectoryNode {| dir_store := 0; dir_key := "/a";
                                dir_names := ["b"; "c"; "d"; "e"] |}))
    as (_ & _ & Hname);
    [reflexivity | discriminate | reflexivity | reflexivity | exact Hname].
Defined.

(** X2: for a directory whose key is all separators or does not end with
    one, the parent of a child is resolved at the directory's own key: it
    is the directory itself when the store still resolves the directory
    to it, and joining the parent key with the child's display name gives
    the child's key back. *)
Theorem X2_parent_of_child (w : World) (h : Heap) (d : Directory) (i : Z)
    (name : string) (n : Node) :
  py_getitem (dir_names d) i = Ok name ->
  name <> "" ->
  str.rfind sep name = -1 ->
  str.endswith sep (Directory_key d) = false
  \/ str.all_eq sep (Directory_key d) = true ->
  Directory_getitem w h d i = Ok n ->
  Filesystem_get_parent w h (Directory_store d) (Node_key n)
  = Some <$> Store_getitem w h (Directory_store d) (Directory_key d)
  /\ op.join (op.dirname (Node_key n)) (Node_display_name n) = Node_key n
  /\ (Store_getitem w h (Directory_store d) (Directory_key d)
      = Ok (DirectoryNode d) ->
      Filesystem_get_parent w h (Node_store n) (Node_key n)
      = Ok (Some (DirectoryNode d))).
Proof.
  intros Hi Hne Hname Hkey Hn. unfold Directory_getitem in Hn. rewrite Hi in Hn.
  simpl in Hn. destruct (getitem_Ok _ _ _ _ _ Hn) as [Hk Hs].
  assert (Hpar : Filesystem_get_parent w h (Directory_store d) (Node_key n)
                 = Some <$> Store_getitem w h (Directory_store d) (Directory_key d)).
  { unfold Filesystem_get_parent. rewrite Hk.
    pose proof (join_not_root (Directory_key d) name Hne Hname) as Hroot.
    apply String.eqb_neq in Hroot. rewrite Hroot.
    rewrite (dirname_join _ _ Hname Hkey). reflexivity. }
  split; [exact Hpar |].
  split.
  - rewrite (display_name_of_key n name Hne)
      by (rewrite Hk; apply basename_join; exact Hname).
    rewrite Hk, (dirname_join _ _ Hname Hkey). reflexivity.
  - intros Hd. rewrite Hs. unfold Directory_store in Hpar. rewrite Hpar.
    unfold Directory_store in Hd. rewrite Hd. reflexivity.
Qed.

Lemma X2_parent_of_child_witness :
  Filesystem_get_parent demo_world demo_heap 0 "/a"
  = Some <$> Store_getitem demo_world demo_heap 0 "/".
Proof.
  destruct (X2_parent_of_child demo_world demo_heap dir_root 0 "a"
              (DirectoryNode {| dir_store := 0; dir_key := "/a";
                                dir_names := ["b"; "c"; "d"; "e"] |}))
    as (Hparent & _ & _);
    [reflexivity | discriminate | reflexivity | right; reflexivity
    | reflexivity | exact Hparent].
Defined.

(** X3: the node [root] resolves has the key ["/"] and no parent; when it
    is a directory its display name is ["/"]. *)
Theorem X3_root_has_no_parent (w : World) (h : Heap) (self : ref) (n : Node) :
  Filesystem_root w h self = Ok n ->
  Node_key n = "/"
  /\ Node_store n = self
  /\ Filesystem_get_parent w h (Node_store n) (Node_key n) = Ok None
  /\ (forall d : Directory, n = DirectoryNode d -> Node_display_name n = "/").
Proof.
  intros Hn. destruct (getitem_Ok _ _ _ _ _ Hn) as [Hk Hs].
  split; [exact Hk |]. split; [exact Hs |].
  split; [rewrite Hk; reflexivity |].
  intros d ->. simpl in *. unfold Directory_display_name, Directory_key.
  rewrite Hk. reflexivity.
Qed.

Lemma X3_root_has_no_parent_witness :
  Filesystem_get_parent demo_world demo_heap
    (Node_store (DirectoryNode dir_root)) (Node_key (DirectoryNode dir_root))
  = Ok None.
Proof.
  destruct (X3_root_has_no_parent demo_world demo_heap 0 (DirectoryNode dir_root)
              eq_refl) as (_ & _ & Hparent & _).
  exact Hparent.
Defined.

Lemma all_eq_endswith (c : ascii) (s : string) :
  s <> "" -> str.all_eq c s = true -> str.endswith c s = true.
Proof.
  induction s as [| a r IH]; [congruence |].
  intros _ H.
  change (str.all_eq c (String a r)) with (Ascii.eqb a c && str.all_eq c r) in H.
  apply andb_true_iff in H. destruct H as [Ha Hr].
  destruct r as [| b r']; [exact Ha |].
  change (str.endswith c (String a (String b r')))
    with (str.endswith c (String b r')).
  apply IH; [discriminate | exact Hr].
Qed.

Lemma dirname_all_sep (key : string) :
  key <> "" -> str.all_eq sep key = true -> op.dirname key = key.
Proof.
  intros Hne Hall.
  destruct (endswith_split _ _ (all_eq_endswith _ _ Hne Hall)) as (q & ->).
  unfold op.dirname.
  rewrite (rfind_app_sep sep q "" eq_refl).
  replace (Z.to_nat (Z.of_nat (String.length q) + 1)) with (S (String.length q))
    by lia.
  rewrite take_app_sep, is_empty_snoc, Hall. reflexivity.
Qed.

(** X4: the root is recognised by the literal key ["/"] only.  A longer
    key made of separators alone is shown as ["/"] by a directory, yet
    its parent is resolved at the very same key: the node is its own
    parent, and [get_parent] never answers [None] for it. *)
Theorem X4_separator_key_is_its_own_parent (w : World) (h : Heap) (self : ref)
    (key : string) :
  key <> "" -> key <> "/" -> str.all_eq sep key = true ->
  Filesystem_get_parent w h self key = Some <$> Store_getitem w h self key
  /\ Filesystem_get_parent w h self key <> Ok None
  /\ (forall n : Node,
        Store_getitem w h self key = Ok n ->
        Filesystem_get_parent w h (Node_store n) (Node_key n) = Ok (Some n))
  /\ (forall (store : ref) (names : list string),
        Directory_display_name
          {| dir_store := store; dir_key := key; dir_names := names |} = "/").
Proof.
  intros Hne Hroot Hall.
  assert (Hpar : Filesystem_get_parent w h self key
                 = Some <$> Store_getitem w h self key).
  { unfold Filesystem_get_parent. apply String.eqb_neq in Hroot. rewrite Hroot.
    rewrite (dirname_all_sep key Hne Hall). reflexivity. }
  split; [exact Hpar |].
  split; [rewrite Hpar; destruct (Store_getitem w h self key); discriminate |].
  split.
  - intros n Hn. destruct (getitem_Ok _ _ _ _ _ Hn) as [-> ->].
    rewrite Hpar, Hn. reflexivity.
  - intros store names. unfold Directory_display_name, Directory_key. cbv zeta.
    simpl dir_key. rewrite length_zero_iff_empty.
    replace (op.basename key) with EmptyString; [reflexivity |].
    symmetry. apply basename_empty_iff. right.
    apply all_eq_endswith; assumption.
Qed.

Lemma X4_separator_key_is_its_own_parent_witness :
  Filesystem_get_parent demo_world demo_heap 0 "//"
  = Some <$> Store_getitem demo_world demo_heap 0 "//".
Proof.
  destruct (X4_separator_key_is_its_own_parent demo_world demo_heap 0 "//")
    as (Hparent & _); [discriminate | discriminate | reflexivity | exact Hparent].
Defined.

(** X5: a file and a directory show the same name for a key whose
    basename is not empty.  For the empty key and the keys that end with
    the separator, and only for them, the display name of a file is empty,
    where a directory shows ["/"]. *)
Theorem X5_file_display_name_may_be_empty (store : ref) (key : string)
    (names : list string) :
  (op.basename key <> "" ->
   File_display_name {| file_store := store; file_key := key |}
   = Directory_display_name
       {| dir_store := store; dir_key := key; dir_names := names |})
  /\ (File_display_name {| file_store := store; file_key := key |} = ""
      <-> key = "" \/ str.endswith sep key = true)
  /\ (File_display_name {| file_store := store; file_key := key |} = "" ->
      Directory_display_name
        {| dir_store := store; dir_key := key; dir_names := names |} = "/").
Proof.
  unfold File_display_name, Directory_display_name, File_key, Directory_key.
  cbv zeta. simpl file_key. simpl dir_key. rewrite length_zero_iff_empty.
  split; [| split].
  - intros Hb. destruct (op.basename key); [congruence | reflexivity].
  - apply basename_empty_iff.
  - intros ->. reflexivity.
Qed.

Lemma X5_file_display_name_may_be_empty_witness :
  File_display_name {| file_store := 0; file_key := "/a/b/" |} = "".
Proof.
  destruct (X5_file_display_name_may_be_empty 0 "/a/b/" []) as (_ & Hempty & _).
  apply Hempty. right. reflexivity.
Defined.

(** ** Reading a readable file *)

Lemma getitem_readable (w : World) (f : File) (content : list byte)
    (args : np.index) :
  fs_read w (File_key f) = inr content ->
  File_getitem w f args = np.getitem content args.
Proof.
  intros Hr. unfold File_getitem, open_read. rewrite Hr. reflexivity.
Qed.

Lemma map_nth_seq (data : list byte) :
  map (fun k : nat => nth (Z.to_nat (0 + Z.of_nat k * 1)) data x00)
      (seq 0 (length data)) = data.
Proof.
  apply nth_ext with (d := x00) (d' := x00).
  - rewrite List.length_map, List.length_seq. reflexivity.
  - intros i Hi. rewrite List.length_map, List.length_seq in Hi.
    rewrite (nth_indep _ x00 (nth (Z.to_nat (0 + Z.of_nat 0 * 1)) data x00))
      by (rewrite List.length_map, List.length_seq; exact Hi).
    rewrite (map_nth (fun k : nat => nth (Z.to_nat (0 + Z.of_nat k * 1)) data x00)).
    rewrite seq_nth by exact Hi. simpl Nat.add.
    f_equal. lia.
Qed.

(** X6: when the file can be read, [f[args]] is [content[args]] for the
    bytes just read: the reported size plays no part, and [f[:]] is the
    whole content. *)
Theorem X6_readable_file_reads_its_content (w : World) (f : File)
    (content : list byte) :
  fs_read w (File_key f) = inr content ->
  (forall args : np.index, File_getitem w f args = np.getitem content args)
  /\ File_getitem w f (np.Slice None None None) = Ok (np.Array content)
  /\ (forall (w' : World) (args : np.index),
        fs_read w' (File_key f) = inr content ->
        File_getitem w' f args = File_getitem w f args).
Proof.
  intros Hr.
  split; [intros args; apply getitem_readable; exact Hr |].
  split.
  - rewrite (getitem_readable _ _ _ _ Hr). simpl.
    unfold np.slice_indices, np.range_len. simpl.
    destruct (0 <? Z.of_nat (length content)) eqn:E.
    + rewrite Z.sub_0_r, Z.div_1_r.
      replace (Z.to_nat (Z.of_nat (length content) - 1 + 1)) with (length content)
        by lia.
      rewrite map_nth_seq. reflexivity.
    + apply Z.ltb_ge in E. destruct content; [reflexivity | simpl in E; lia].
  - intros w' args Hr'.
    rewrite (getitem_readable _ _ _ _ Hr), (getitem_readable _ _ _ _ Hr').
    reflexivity.
Qed.

Lemma X6_readable_file_reads_its_content_witness :
  File_getitem demo_world_grown {| file_store := 0; file_key := "/a/b" |}
               (np.Slice None None None)
  = Ok (np.Array [x68; x64; x66; x0a; x21; x0a]).
Proof.
  destruct (X6_readable_file_reads_its_content demo_world_grown
              {| file_store := 0; file_key := "/a/b" |}
              [x68; x64; x66; x0a; x21; x0a] eq_refl) as (_ & Hall & _).
  exact Hall.
Defined.



(** *** Slices *)

Lemma range_len_forward (a b s k : Z) :
  0 < s -> 0 <= k < np.range_len a b s -> a <= a + k * s < b.
Proof.
  intros Hs Hk. unfold np.range_len in Hk.
  replace (0 <? s) with true in Hk by (symmetry; apply Z.ltb_lt; lia).
  destruct (a <? b) eqn:E; [| lia].
  apply Z.ltb_lt in E.
  pose proof (Z.mul_div_le (b - a - 1) s Hs) as Hq.
  nia.
Qed.

Lemma range_len_backward (a b s k : Z) :
  s < 0 -> 0 <= k < np.range_len a b s -> b < a + k * s <= a.
Proof.
  intros Hs Hk. unfold np.range_len in Hk.
  replace (0 <? s) with false in Hk by (symmetry; apply Z.ltb_ge; lia).
  destruct (b <? a) eqn:E; [| lia].
  apply Z.ltb_lt in E.
  pose proof (Z.mul_div_le (a - b - 1) (- s) ltac:(lia)) as Hq.
  nia.
Qed.

Lemma range_len_le (a b s : Z) :
  s <> 0 ->
  np.range_len a b s <= Z.max 0 (if 0 <? s then b - a else a - b).
Proof.
  intros Hs. unfold np.range_len.
  destruct (0 <? s) eqn:Es; [apply Z.ltb_lt in Es | apply Z.ltb_ge in Es].
  - destruct (a <? b) eqn:E; [apply Z.ltb_lt in E | lia].
    assert ((b - a - 1) / s <= b - a - 1)
      by (apply Z.div_le_upper_bound; [lia | nia]).
    lia.
  - destruct (b <? a) eqn:E; [apply Z.ltb_lt in E | lia].
    assert ((a - b - 1) / (- s) <= a - b - 1)
      by (apply Z.div_le_upper_bound; [lia | nia]).
    lia.
Qed.

Lemma slice_indices_bounds (start stop step : option Z) (n first last s : Z) :
  0 <= n ->
  np.slice_indices start stop step n = Ok (first, last, s) ->
  s <> 0
  /\ (0 < s -> 0 <= first <= n /\ 0 <= last <= n)
  /\ (s < 0 -> -1 <= first <= n - 1 /\ -1 <= last <= n - 1).
Proof.
  intros Hn. unfold np.slice_indices.
  destruct (default 1 step =? 0) eqn:E0; [discriminate |].
  apply Z.eqb_neq in E0. intros [= <- <- <-].
  split; [exact E0 |].
  destruct (default 1 step <? 0) eqn:Es;
    [apply Z.ltb_lt in Es | apply Z.ltb_ge in Es];
    destruct start as [b1 |]; destruct stop as [b2 |];
    repeat match goal with
           | |- context [?b <? 0] => destruct (Z.ltb_spec b 0)
           end;
    lia.
Qed.

(** X8: a slice of a readable file never raises [IndexError], however
    far its bounds lie outside the file: a step of zero raises
    [ValueError], and any other slice returns an array that is no longer
    than the file and holds bytes of the file only. *)
Theorem X8_slice_read_is_clipped (w : World) (f : File) (content : list byte)
    (start stop step : option Z) :
  fs_read w (File_key f) = inr content ->
  (step = Some 0 ->
   File_getitem w f (np.Slice start stop step)
   = Raise (ValueError "slice step cannot be zero"))
  /\ (step <> Some 0 ->
      exists l : list byte,
        File_getitem w f (np.Slice start stop step) = Ok (np.Array l)
        /\ (length l <= length content)%nat
        /\ forall b : byte, In b l -> In b content).
Proof.
  intros Hr. rewrite (getitem_readable _ _ _ _ Hr). simpl.
  split.
  { intros ->. reflexivity. }
  intros Hstep.
  destruct (np.slice_indices start stop step (Z.of_nat (length content)))
    as [[[first last] s] | e] eqn:E.
  2:{ unfold np.slice_indices in E.
      destruct (default 1 step =? 0) eqn:E0; [| discriminate].
      apply Z.eqb_eq in E0. destruct step as [z |]; simpl in E0; [| discriminate].
      subst z. contradiction. }
  destruct (slice_indices_bounds _ _ _ _ _ _ _ (Nat2Z.is_nonneg _) E)
    as (Hs & Hpos & Hneg).
  eexists. split; [reflexivity |]. split.
  - rewrite List.length_map, List.length_seq.
    pose proof (range_len_le first last s Hs) as Hle.
    destruct (0 <? s) eqn:Es; [apply Z.ltb_lt in Es | apply Z.ltb_ge in Es].
    + specialize (Hpos Es). lia.
    + specialize (Hneg ltac:(lia)). lia.
  - intros b Hb. apply in_map_iff in Hb. destruct Hb as (k & <- & Hk).
    apply in_seq in Hk. apply nth_In.
    assert (Hkz : 0 <= Z.of_nat k < np.range_len first last s) by lia.
    destruct (Z_lt_ge_dec 0 s) as [Es | Es].
    + pose proof (range_len_forward first last s _ Es Hkz).
      specialize (Hpos Es). lia.
    + assert (Es' : s < 0) by lia.
      pose proof (range_len_backward first last s _ Es' Hkz).
      specialize (Hneg Es'). lia.
Qed.

Lemma X8_slice_read_is_clipped_witness :
  exists l : list byte,
    File_getitem demo_world {| file_store := 0; file_key := "/a/b" |}
                 (np.Slice (Some (-100)) (Some 100) (Some 3))
    = Ok (np.Array l)
    /\ (length l <= 4)%nat.
Proof.
  destruct (X8_slice_read_is_clipped demo_world
              {| file_store := 0; file_key := "/a/b" |}
              [x68; x64; x66; x0a] (Some (-100)) (Some 100) (Some 3) eq_refl)
    as (_ & Hclip).
  destruct (Hclip ltac:(discriminate)) as (l & Hl & Hlen & _).
  exists l. split; [exact Hl | exact Hlen].
Defined.

(** ** Closing stores *)

Lemma close_lookup (h : Heap) (self r : ref) :
  Filesystem_close h self !! r
  = if decide (self = r)
    then (fun s => {| _url := _url s; _valid := false |}) <$> h !! r
    else h !! r.
Proof.
  unfold Filesystem_close. rewrite list_lookup_alter.
  destruct (decide (self = r)) as [-> |]; reflexivity.
Qed.

(** X9: closing is idempotent, closing two stores gives the same heap in
    either order, and closing a store that is already closed changes
    nothing. *)
Theorem X9_close_idempotent_commutative (h : Heap) (r1 r2 : ref) :
  Filesystem_close (Filesystem_close h r1) r1 = Filesystem_close h r1
  /\ Filesystem_close (Filesystem_close h r1) r2
     = Filesystem_close (Filesystem_close h r2) r1
  /\ (forall s : Filesystem,
        h !! r1 = Some s -> _valid s = false -> Filesystem_close h r1 = h).
Proof.
  split; [| split].
  - apply list_eq. intros i. rewrite !close_lookup.
    destruct (decide (r1 = i)); [| reflexivity].
    destruct (h !! i); reflexivity.
  - apply list_eq. intros i. rewrite !close_lookup.
    destruct (decide (r1 = i)); destruct (decide (r2 = i)); reflexivity.
  - intros s Hs Hv. apply list_eq. intros i. rewrite close_lookup.
    destruct (decide (r1 = i)) as [<- |]; [| reflexivity].
    rewrite Hs. simpl. destruct s as [u v]. simpl in Hv. subst v. reflexivity.
Qed.

Lemma X9_close_idempotent_commutative_witness :
  Filesystem_close (Filesystem_close demo_heap 0) 0 = Filesystem_close demo_heap 0.
Proof.
  destruct (X9_close_idempotent_commutative demo_heap 0 0) as (Hidem & _).
  exact Hidem.
Defined.

Lemma getitem_same_store (w : World) (h h' : Heap) (r : ref) (key : string) :
  h' !! r = h !! r -> Store_getitem w h' r key = Store_getitem w h r key.
Proof. intros H. unfold Store_getitem, deref. rewrite H. reflexivity. Qed.

(** X10: two stores constructed one after the other are different
    objects, both valid; closing the first leaves the second valid and
    resolving as before. *)
Theorem X10_stores_are_independent (w : World) (h h1 h2 : Heap) (url1 url2 : string)
    (r1 r2 : ref) (key : string) :
  Filesystem_init h url1 = Ok (r1, h1) ->
  Filesystem_init h1 url2 = Ok (r2, h2) ->
  r1 <> r2
  /\ Filesystem_valid h2 r1 = Ok true
  /\ Filesystem_valid h2 r2 = Ok true
  /\ Filesystem_valid (Filesystem_close h2 r1) r1 = Ok false
  /\ Filesystem_valid (Filesystem_close h2 r1) r2 = Ok true
  /\ Store_getitem w (Filesystem_close h2 r1) r2 key = Store_getitem w h2 r2 key.
Proof.
  unfold Filesystem_init.
  destruct (negb (Filesystem_can_handle url1)); [discriminate |].
  destruct (negb (Filesystem_can_handle url2)); [discriminate |].
  intros [= <- <-] [= <- <-].
  assert (Hne : length h <> length (h ++ [{| _url := url1; _valid := true |}])%list)
    by (rewrite length_app; simpl; lia).
  assert (H1 : (((h ++ [{| _url := url1; _valid := true |}])
                ++ [{| _url := url2; _valid := true |}])%list : Heap) !! length h
               = Some {| _url := url1; _valid := true |}).
  { apply lookup_app_l_Some. apply init_lookup_new. }
  pose proof (init_lookup_new (h ++ [{| _url := url1; _valid := true |}])%list
                {| _url := url2; _valid := true |}) as H2.
  split; [exact Hne |].
  split; [unfold Filesystem_valid; rewrite (deref_Some _ _ _ H1); reflexivity |].
  split; [unfold Filesystem_valid; rewrite (deref_Some _ _ _ H2); reflexivity |].
  split.
  { unfold Filesystem_valid.
    rewrite (deref_Some _ _ _ (close_lookup_self _ _ _ H1)). reflexivity. }
  split.
  { unfold Filesystem_valid, deref. rewrite close_lookup_other by congruence.
    rewrite H2. reflexivity. }
  apply getitem_same_store. apply close_lookup_other. congruence.
Qed.

Lemma X10_stores_are_independent_witness :
  Store_getitem demo_world
    (Filesystem_close
       (demo_heap ++ [{| _url := "file://localhost"; _valid := true |}])%list 0)
    1 "/a"
  = Store_getitem demo_world
      (demo_heap ++ [{| _url := "file://localhost"; _valid := true |}])%list 1 "/a".
Proof.
  destruct (X10_stores_are_independent demo_world [] demo_heap
              (demo_heap ++ [{| _url := "file://localhost"; _valid := true |}])%list
              "file://localhost" "file://localhost" 0 1 "/a" eq_refl eq_refl)
    as (_ & _ & _ & _ & _ & Hsame).
  exact Hsame.
Defined.

(** ** Descriptions and empty directories *)

Lemma append_inj_l (p a b : string) : (p ++ a)%string = (p ++ b)%string -> a = b.
Proof. induction p as [| c p IH]; simpl; [auto |]. intros [= H]. auto. Qed.

Lemma length_append (a b : string) :
  String.length (a ++ b)%string = (String.length a + String.length b)%nat.
Proof. induction a as [| c a IH]; simpl; [reflexivity | rewrite IH; reflexivity]. Qed.

Lemma append_inj_r (a b t : string) : (a ++ t)%string = (b ++ t)%string -> a = b.
Proof.
  revert b. induction a as [| c a IH]; intros [| c' b] H.
  - reflexivity.
  - apply (f_equal String.length) in H. simpl in H.
    rewrite length_append in H. lia.
  - apply (f_equal String.length) in H. simpl in H.
    rewrite length_append in H. lia.
  - simpl in H. injection H as -> H. f_equal. apply IH. exact H.
Qed.

Lemma format_d_inj (n m : nat) : format_d n = format_d m -> n = m.
Proof.
  unfold format_d. intros H.
  apply (f_equal NilEmpty.uint_of_string) in H.
  rewrite !NilEmpty.usu in H. injection H as H.
  apply Unsigned.to_uint_inj. exact H.
Qed.

(** X11: a directory without names, such as one whose listing failed,
    raises [IndexError] for every index, in any world and heap, and its
    description counts 0 members. *)
Theorem X11_empty_directory_rejects_every_index (w : World) (store : ref)
    (key : string) (e : errno) (d : Directory) :
  fs_listdir w key = inl e ->
  Directory_init w store key = Ok d ->
  (forall (w' : World) (h' : Heap) (i : Z),
     Directory_getitem w' h' d i = Raise IndexError)
  /\ Directory_description d
     = ("Folder " ++ dquote ++ Directory_display_name d ++ dquote
        ++ " (0 members)")%string.
Proof.
  intros He Hd.
  destruct (Directory_init_total w store key) as (names & Hd' & Hn).
  rewrite He in Hn. subst names. rewrite Hd' in Hd. injection Hd as <-.
  split; [| reflexivity].
  intros w' h' i. unfold Directory_getitem.
  rewrite py_getitem_out_of_range; [reflexivity |]. simpl. lia.
Qed.

Lemma X11_empty_directory_rejects_every_index_witness :
  Directory_getitem demo_world demo_heap
    {| dir_store := 0; dir_key := "/a/c"; dir_names := [] |} 0
  = Raise IndexError.
Proof.
  destruct (X11_empty_directory_rejects_every_index demo_world 0 "/a/c" EACCES
              {| dir_store := 0; dir_key := "/a/c"; dir_names := [] |}
              eq_refl eq_refl) as (Hidx & _).
  apply Hidx.
Defined.

(** X12: the description of a directory tells its member count: two
    directories shown under the same name have the same description
    exactly when they hold the same number of names. *)
Theorem X12_directory_description_counts_members (d1 d2 : Directory) :
  Directory_display_name d1 = Directory_display_name d2 ->
  (Directory_description d1 = Directory_description d2
   <-> Directory_len d1 = Directory_len d2).
Proof.
  intros Hname. unfold Directory_description. rewrite Hname.
  split.
  - intros H.
    repeat (apply append_inj_l in H).
    apply append_inj_r in H. apply format_d_inj. exact H.
  - intros ->. reflexivity.
Qed.

Lemma X12_directory_description_counts_members_witness :
  Directory_description dir_root
  <> Directory_description {| dir_store := 0; dir_key := "/"; dir_names := [] |}.
Proof.
  intros H.
  apply (X12_directory_description_counts_members dir_root
           {| dir_store := 0; dir_key := "/"; dir_names := [] |} eq_refl) in H.
  discriminate H.
Defined.

(** X13: the description of a file is available exactly when its shape
    is, and fails with the same exception; it shows the size the shape
    reports, so that two descriptions of one file agree only if the shapes
    do. *)
Theorem X13_file_description_follows_shape (w w' : World) (f : File) :
  (forall e : exn, File_description w f = Raise e <-> File_shape w f = Raise e)
  /\ (forall n : nat,
        File_shape w f = Ok [n] ->
        File_description w f
        = Ok ("File " ++ dquote ++ File_display_name f ++ dquote
              ++ ", size " ++ format_d n ++ " bytes")%string)
  /\ (forall s : string,
        File_description w f = Ok s -> File_description w' f = Ok s ->
        File_shape w f = File_shape w' f).
Proof.
  unfold File_description, File_shape. cbv zeta.
  split; [| split].
  - intros e. destruct (op.getsize w (File_key f)); simpl;
      split; congruence.
  - intros n. destruct (op.getsize w (File_key f)); simpl; [| discriminate].
    intros [= ->]. reflexivity.
  - intros s.
    destruct (op.getsize w (File_key f)) as [n |]; simpl; [| discriminate].
    destruct (op.getsize w' (File_key f)) as [n' |]; simpl; [| discriminate].
    intros [= <-] [= H].
    repeat (apply append_inj_l in H).
    repeat (injection H as H).
    apply append_inj_r, format_d_inj in H. subst n'. reflexivity.
Qed.

Lemma X13_file_description_follows_shape_witness :
  File_description demo_world {| file_store := 0; file_key := "/gone" |}
  = Raise (OSError ENOENT).
Proof.
  destruct (X13_file_description_follows_shape demo_world demo_world
              {| file_store := 0; file_key := "/gone" |}) as (Hfail & _).
  apply Hfail. reflexivity.
Defined.

(** ** The names a pass shows *)

Lemma resolves_display_names (w : World) (h : Heap) (d : Directory)
    (names : list string) (nodes : list Node) :
  Forall (fun name : string => name <> "" /\ str.rfind sep name = -1) names ->
  Forall2 (child_resolves w h d) names nodes ->
  map Node_display_name nodes = names
  /\ Forall (fun n : Node => Node_store n = Directory_store d) nodes.
Proof.
  intros Hnames Hres. revert Hnames.
  induction Hres as [| name n names nodes Hn _ IH]; intros Hnames.
  - split; [reflexivity | constructor].
  - apply Forall_cons in Hnames. destruct Hnames as [[Hne Hsep] Hnames].
    destruct (IH Hnames) as [IHd IHs].
    destruct (getitem_Ok _ _ _ _ _ Hn) as [Hk Hs].
    split.
    + simpl. rewrite IHd. f_equal.
      apply display_name_of_key; [exact Hne |].
      rewrite Hk. apply basename_join. exact Hsep.
    + constructor; [exact Hs | exact IHs].
Qed.

(** X14: when the captured names are non-empty and hold no separator, a
    pass that runs to exhaustion shows exactly the captured names, in
    their order, as the display names of its nodes, and every node
    belongs to the directory's store. *)
Theorem X14_pass_shows_the_listing (w : World) (h : Heap) (d : Directory) :
  Forall (fun name : string => name <> "" /\ str.rfind sep name = -1)
         (dir_names d) ->
  snd (consume (S (Directory_len d)) w h (Directory_iter d)) = Exhausted ->
  map Node_display_name
      (fst (consume (S (Directory_len d)) w h (Directory_iter d)))
  = dir_names d
  /\ Forall (fun n : Node => Node_store n = Directory_store d)
            (fst (consume (S (Directory_len d)) w h (Directory_iter d))).
Proof.
  unfold Directory_len, Directory_iter. intros Hnames Ho.
  destruct (consume_prefix w h d (dir_names d) (S (length (dir_names d)))
              ltac:(lia)) as (_ & Hpre & Hlen & _).
  rewrite (Hlen Ho), take_ge in Hpre by lia.
  apply (resolves_display_names w h d _ _ Hnames Hpre).
Qed.

Lemma X14_pass_shows_the_listing_witness :
  map Node_display_name
      (fst (consume (S (Directory_len dir_root)) demo_world demo_heap
              (Directory_iter dir_root)))
  = ["a"].
Proof.
  destruct (X14_pass_shows_the_listing demo_world demo_heap dir_root)
    as (Hnames & _).
  - repeat constructor. discriminate.
  - reflexivity.
  - exact Hnames.
Defined.
